(** * Library catalog service: a shallow embedding of [bookService.ts]

    The service keeps one module-level array [books] and exposes
    add / update / delete / borrow / return / recommend operations on it.
    The array is modelled as a [list Book] threaded through a small
    state-and-exception monad; an object reference obtained with
    [Array.prototype.find] is modelled by the index of the object in the
    array, and a field assignment by a store at that index.

    The two inputs the service reads from its environment, [Date.now()] and
    [Math.random()], are made explicit arguments of the operations that
    read them.

    JavaScript numbers are doubles. The model computes with exact integers
    and rationals; the statements that depend on a computed number carry
    the bound under which the doubles of the code give the same result. *)

From Stdlib Require Import ZArith QArith Qround Lia.
From stdpp Require Import base option list sorting strings pretty.

Local Open Scope Z_scope.

(** ** JavaScript primitives used by the service *)

Module JS.

(** [!s] for a value of static type [string]: only the empty string is
    falsy. *)
Definition falsy (s : string) : bool := bool_decide (s = EmptyString).

(** [Math.ceil(x)]. *)
Definition Math_ceil (x : Q) : Z := Qceiling x.

(** [x.toFixed(0)] for [0 <= x < 1e21]: the decimal digits of the integer
    nearest to [x], the larger one on a tie. *)
Definition toFixed0 (x : Q) : string := pretty (Qfloor (x + (1 # 2))%Q).

(** [arr.slice(0, n)]. *)
Definition slice0 {A} (n : nat) (arr : list A) : list A := take n arr.

(** [arr.sort(cmp)]: a stable sort; [cmp a b > 0] means that [a] goes
    after [b]. Written as an insertion sort that builds the result from
    the right, so that an element stays in front of the later elements it
    compares equal to. *)
Fixpoint sort_insert {A} (cmp : A → A → Z) (x : A) (l : list A) : list A :=
  match l with
  | [] => [x]
  | y :: l' => if decide (cmp x y ≤ 0) then x :: y :: l'
               else y :: sort_insert cmp x l'
  end.

Definition sort {A} (cmp : A → A → Z) (l : list A) : list A :=
  foldr (sort_insert cmp) [] l.

End JS.

(** ** Data model *)

(** A timestamp in the format of [Date.prototype.toISOString], which has
    millisecond precision: the string is determined by, and parses back to,
    the number of milliseconds since the epoch. *)
Inductive ISOString : Type := ISO (ms : Z).

Definition getTime (d : ISOString) : Z := let 'ISO ms := d in ms.

(** The time values a [Date] can hold: at most 8.64e15 milliseconds from
    the epoch on either side. [new Date(t)] with [t] outside this range is
    an invalid date. *)
Definition valid_time (t : Z) : Prop :=
  -8640000000000000 ≤ t ≤ 8640000000000000.

Global Instance valid_time_dec t : Decision (valid_time t).
Proof. unfold valid_time. apply _. Defined.

Global Instance ISOString_eq_dec : EqDecision ISOString.
Proof. solve_decision. Defined.

(** Modelled from the spec: the interface [Book] of [models/bookModel.ts],
    which is imported by the service but is not among the sources. The
    fields are the ones of the spec's data model; [borrowerId] and
    [dueDate] are optional properties, [None] standing for an absent
    property. *)
Record Book : Type := mkBook {
  id : string;
  title : string;
  author : string;
  genre : string;
  isBorrowed : bool;
  borrowerId : option string;
  dueDate : option ISOString;
}.

Global Instance Book_eq_dec : EqDecision Book.
Proof. solve_decision. Defined.

(** [Omit<Book, "id" | "isBorrowed" | "borrowerId" | "dueDate">]. *)
Record NewBook : Type := mkNewBook {
  new_title : string;
  new_author : string;
  new_genre : string;
}.

(** [Partial<Book>]: every property of [Book] made optional. *)
Record PartialBook : Type := mkPartialBook {
  p_id : option string;
  p_title : option string;
  p_author : option string;
  p_genre : option string;
  p_isBorrowed : option bool;
  p_borrowerId : option string;
  p_dueDate : option ISOString;
}.

(** [Book & { penalty?: number }]. *)
Record ReturnedBook : Type := mkReturnedBook {
  returned : Book;
  penalty : option Z;
}.

(** Field assignments [book.f = v] and [delete book.f]. *)
Definition set_isBorrowed (v : bool) (b : Book) : Book :=
  mkBook (id b) (title b) (author b) (genre b) v (borrowerId b) (dueDate b).
Definition set_borrowerId (v : option string) (b : Book) : Book :=
  mkBook (id b) (title b) (author b) (genre b) (isBorrowed b) v (dueDate b).
Definition set_dueDate (v : option ISOString) (b : Book) : Book :=
  mkBook (id b) (title b) (author b) (genre b) (isBorrowed b) (borrowerId b) v.

(** [delete safeUpdate.f] on a [Partial<Book>]. *)
Definition delete_id (p : PartialBook) : PartialBook :=
  mkPartialBook None (p_title p) (p_author p) (p_genre p)
                (p_isBorrowed p) (p_borrowerId p) (p_dueDate p).
Definition delete_isBorrowed (p : PartialBook) : PartialBook :=
  mkPartialBook (p_id p) (p_title p) (p_author p) (p_genre p)
                None (p_borrowerId p) (p_dueDate p).
Definition delete_borrowerId (p : PartialBook) : PartialBook :=
  mkPartialBook (p_id p) (p_title p) (p_author p) (p_genre p)
                (p_isBorrowed p) None (p_dueDate p).
Definition delete_dueDate (p : PartialBook) : PartialBook :=
  mkPartialBook (p_id p) (p_title p) (p_author p) (p_genre p)
                (p_isBorrowed p) (p_borrowerId p) None.

(** [Object.assign(target, source)]: every property present in [source]
    overwrites the one of [target]; the others are kept. *)
Definition Object_assign (target : Book) (source : PartialBook) : Book :=
  mkBook (default (id target) (p_id source))
         (default (title target) (p_title source))
         (default (author target) (p_author source))
         (default (genre target) (p_genre source))
         (default (isBorrowed target) (p_isBorrowed source))
         (match p_borrowerId source with
          | Some v => Some v | None => borrowerId target end)
         (match p_dueDate source with
          | Some v => Some v | None => dueDate target end).

(** ** Errors and the service monad *)

(** Every failure is a plain [Error] distinguished by its message; the
    constructors name the five throw sites after the spec's error kinds.
    - [ValidationError]: "Missing required fields: title, author, and genre
      are required"
    - [NotFoundError id]: "Book with ID id not found" (followed by "in the
      inventory" in [returnBook])
    - [AlreadyBorrowedError id]: "Book with ID id is already borrowed"
    - [NotBorrowedError id]: "Book with ID id is not currently borrowed"
    - [WrongBorrowerError id]: "Book with ID id was not borrowed by this
      user"

    The sixth, [RangeError], is not thrown by the service itself but by
    [Date.prototype.toISOString] on an invalid date ("Invalid time
    value"). *)
Inductive Error : Type :=
| ValidationError
| NotFoundError (i : string)
| AlreadyBorrowedError (i : string)
| NotBorrowedError (i : string)
| WrongBorrowerError (i : string)
| RangeError.

(** The five errors the service throws with [throw new Error(...)]. *)
Definition service_error (e : Error) : Prop :=
  match e with
  | RangeError => False
  | _ => True
  end.

(** A computation over the [books] array that either returns or throws.
    The array is part of the outcome in both cases: what was written before
    a [throw] stays written. *)
Definition Svc (A : Type) : Type := list Book → (Error + A) * list Book.

Global Instance Svc_ret : MRet Svc := λ A a s, (inr a, s).
Global Instance Svc_bind : MBind Svc := λ A B k m s,
  match m s with
  | (inl e, s') => (inl e, s')
  | (inr a, s') => k a s'
  end.

Definition throw {A} (e : Error) : Svc A := λ s, (inl e, s).

(** [new Date(t).toISOString()]: the timestamp of a valid date, a
    [RangeError] for an invalid one. *)
Definition toISOString (t : Z) : Svc ISOString :=
  if decide (valid_time t) then mret (ISO t) else throw RangeError.

(** [books.find((b) => b.id === id)]: the first book with that id, together
    with its position, which plays the role of the object reference. *)
Definition findBook (i : string) (s : list Book) : option (nat * Book) :=
  list_find (λ b, id b = i) s.

Definition find (i : string) : Svc (option (nat * Book)) :=
  λ s, (inr (findBook i s), s).

(** The object at position [k] now has the value [b]. *)
Definition store (k : nat) (b : Book) : Svc unit :=
  λ s, (inr tt, <[k := b]> s).

Definition push (b : Book) : Svc unit := λ s, (inr tt, s ++ [b]).

(** [books.splice(k, 1)]. *)
Definition splice1 (k : nat) : Svc unit := λ s, (inr tt, delete k s).

(** ** The service, [src/services/bookService.ts] *)

Definition books : list Book := [
  mkBook "1" "The Great Gatsby" "F. Scott Fitzgerald" "Fiction" false None None;
  mkBook "2" "1984" "George Orwell" "Dystopian" false None None;
  mkBook "3" "To Kill a Mockingbird" "Harper Lee" "Classic" false None None
].

Definition getAllBooks : Svc (list Book) := λ s, (inr s, s).

(** [random] is the value returned by [Math.random()]. The model takes
    the product [random * 10000] exactly, where the code rounds it to a
    double before [toFixed(0)]; the id of the code can therefore be the
    next integer, and lies in the same range from 0 to 10000. *)
Definition addBook (random : Q) (bookData : NewBook) : Svc Book :=
  if JS.falsy (new_title bookData) || JS.falsy (new_author bookData)
     || JS.falsy (new_genre bookData)
  then throw ValidationError
  else
    let newBook :=
      mkBook (JS.toFixed0 (random * 10000)%Q)
             (new_title bookData) (new_author bookData) (new_genre bookData)
             false None None in
    push newBook;;
    mret newBook.

Definition updateBook (i : string) (bookData : PartialBook) : Svc Book :=
  found ← find i;
  match found with
  | None => throw (NotFoundError i)
  | Some (k, book) =>
      let safeUpdate := bookData in
      let safeUpdate := delete_id safeUpdate in
      let safeUpdate := delete_isBorrowed safeUpdate in
      let safeUpdate := delete_borrowerId safeUpdate in
      let safeUpdate := delete_dueDate safeUpdate in
      let book := Object_assign book safeUpdate in
      store k book;;
      mret book
  end.

Definition deleteBook (i : string) : Svc bool :=
  found ← find i;
  match found with
  | Some (index, _) => splice1 index;; mret true
  | None => mret false
  end.

(** [now] is the value returned by [Date.now()]. The right-hand side of
    the third assignment is evaluated, and may throw, after the first two
    assignments were made. *)
Definition borrowBook (now : Z) (i borrowerId_ : string) : Svc Book :=
  found ← find i;
  match found with
  | None => throw (NotFoundError i)
  | Some (k, book) =>
      if isBorrowed book then throw (AlreadyBorrowedError i)
      else
        let book := set_isBorrowed true book in
        store k book;;
        let book := set_borrowerId (Some borrowerId_) book in
        store k book;;
        due ← toISOString (now + 14 * 24 * 60 * 60 * 1000);
        let book := set_dueDate (Some due) book in
        store k book;;
        mret book
  end.

(** [Math.ceil((currentDate.getTime() - dueDate.getTime()) / (24 * 60 * 60 *
    1000))]. Both times are integer numbers of milliseconds; the model
    takes their difference and the quotient exactly, where the code
    subtracts and divides doubles. The two agree for times at most 2^53
    milliseconds apart ([exact_span] below): the difference is then exact,
    and a quotient that is not an integer lies at least 1/86400000 away
    from the integers around it, more than half the spacing of doubles
    below 2^27, so rounding cannot change its ceiling. Beyond that span the
    code's result can differ, and no statement is made. *)
Definition daysLate (currentDate dueDate_ : Z) : Z :=
  JS.Math_ceil
    (inject_Z (currentDate - dueDate_) / inject_Z (24 * 60 * 60 * 1000))%Q.

(** The penalty of a return. With the due date missing, [new Date(undefined)]
    is an invalid date, [daysLate] is [NaN], both comparisons are false and
    the penalty stays [0]. *)
Definition penaltyOf (now : Z) (due : option ISOString) : Z :=
  match due with
  | None => 0
  | Some d =>
      let daysLate := daysLate now (getTime d) in
      if decide (daysLate > 0)
      then if decide (daysLate > 14) then (daysLate - 14) * 2 else 0
      else 0
  end.

(** [now] is the time of [new Date()]. *)
Definition returnBook (now : Z) (i borrowerId_ : string) : Svc ReturnedBook :=
  found ← find i;
  match found with
  | None => throw (NotFoundError i)
  | Some (k, book) =>
      if negb (isBorrowed book) then throw (NotBorrowedError i)
      else if bool_decide (borrowerId book ≠ Some borrowerId_)
      then throw (WrongBorrowerError i)
      else
        let penalty := penaltyOf now (dueDate book) in
        let book := set_isBorrowed false book in
        store k book;;
        let book := set_borrowerId None book in
        store k book;;
        let book := set_dueDate None book in
        store k book;;
        mret (if decide (penalty > 0)
              then mkReturnedBook book (Some penalty)
              else mkReturnedBook book None)
  end.

Definition getRecommendations : Svc (list Book) :=
  λ s, (inr (JS.slice0 3 s), s).

(** ** The variant of the service in the second source file

    The file defines the same [books] array and the same [addBook],
    [updateBook], [deleteBook], [borrowBook] and [getRecommendations]; it
    adds [getPopularBooks] and has an older [returnBook] that takes no
    borrower and charges nothing. *)

Module Variant.

(** The object literal, as the list of its entries in property order,
    which is the order [Object.entries] enumerates them in. *)
Definition getBorrowCountsLast6Months : list (string * Z) :=
  [("Fiction", 15); ("Dystopian", 25); ("Classic", 20)]%string.

(** [.sort(([, countA], [, countB]) => countB - countA)]. *)
Definition byCountDesc (a b : string * Z) : Z := b.2 - a.2.

(** [Object.entries(borrowCounts).sort(...).slice(0, 3).map(([genre]) =>
    genre)]. *)
Definition topGenresOf (borrowCounts : list (string * Z)) : list string :=
  (JS.slice0 3 (JS.sort byCountDesc borrowCounts)).*1.

(** [books.filter((book) => book.genre === genre).slice(0, 10)]. *)
Definition booksInGenre (s : list Book) (genre_ : string) : list Book :=
  JS.slice0 10 (filter (λ book, genre book = genre_) s).

Definition getPopularBooks : Svc (list Book) := λ s,
  let borrowCounts := getBorrowCountsLast6Months in
  let topGenres := topGenresOf borrowCounts in
  let popularBooks :=
    foldl (λ popularBooks genre_, popularBooks ++ booksInGenre s genre_)
          [] topGenres in
  (inr popularBooks, s).

Definition returnBook (i : string) : Svc Book :=
  found ← find i;
  match found with
  | None => throw (NotFoundError i)
  | Some (k, book) =>
      if negb (isBorrowed book) then throw (NotBorrowedError i)
      else
        let book := set_isBorrowed false book in
        store k book;;
        let book := set_borrowerId None book in
        store k book;;
        let book := set_dueDate None book in
        store k book;;
        mret book
  end.

End Variant.

(** ** Sequences of operations *)

(** One call of a mutating operation, with its arguments and the values it
    reads from the environment. *)
Inductive Op : Type :=
| Add (random : Q) (bookData : NewBook)
| Update (i : string) (bookData : PartialBook)
| Delete (i : string)
| Borrow (now : Z) (i borrowerId_ : string)
| Return (now : Z) (i borrowerId_ : string).

(** What a caller that ignores the returned value observes: the error
    thrown, if any, and the array afterwards. *)
Definition outcome {A} (r : (Error + A) * list Book) : option Error * list Book :=
  (match r.1 with inl e => Some e | inr _ => None end, r.2).

Definition exec (o : Op) (s : list Book) : option Error * list Book :=
  match o with
  | Add random bookData => outcome (addBook random bookData s)
  | Update i bookData => outcome (updateBook i bookData s)
  | Delete i => outcome (deleteBook i s)
  | Borrow now i u => outcome (borrowBook now i u s)
  | Return now i u => outcome (returnBook now i u s)
  end.

(** The arrays the process can hold: the seed array, and whatever a call
    leaves behind, whether it returned or threw. *)
Inductive reachable : list Book → Prop :=
| reachable_seed : reachable books
| reachable_exec o s : reachable s → reachable (exec o s).2.

(** The clock stays in the range where the due date of a loan is a valid
    date: a [Borrow] call reads a time whose fourteenth day after is at
    most 8.64e15 milliseconds from the epoch. *)
Definition clock_ok (o : Op) : Prop :=
  match o with
  | Borrow now _ _ => valid_time (now + 14 * 24 * 60 * 60 * 1000)
  | _ => True
  end.

(** The arrays the process can hold while the clock stays in that range. *)
Inductive reachable_dated : list Book → Prop :=
| reachable_dated_seed : reachable_dated books
| reachable_dated_exec o s :
    clock_ok o → reachable_dated s → reachable_dated (exec o s).2.

(** The span between two times over which the code's double arithmetic is
    exact. *)
Definition exact_span (now due : Z) : Prop := Z.abs (now - due) ≤ 2 ^ 53.

(** The invariant of the spec's data model: [borrowerId] and [dueDate] are
    both present or both absent, and both absent when [isBorrowed] is
    false. *)
Definition consistent (b : Book) : Prop :=
  (is_Some (borrowerId b) ↔ is_Some (dueDate b)) ∧
  (isBorrowed b = false → borrowerId b = None ∧ dueDate b = None).

Global Instance consistent_dec b : Decision (consistent b).
Proof. unfold consistent. apply _. Defined.

(** The stronger reading of the data model, "present iff [isBorrowed]". *)
Definition loan_ok (b : Book) : Prop :=
  if isBorrowed b
  then is_Some (borrowerId b) ∧ is_Some (dueDate b)
  else borrowerId b = None ∧ dueDate b = None.

(** What holds of a record even after a loan that failed on its date: a
    record that is not borrowed has neither borrower nor due date. *)
Definition idle_ok (b : Book) : Prop :=
  isBorrowed b = false → borrowerId b = None ∧ dueDate b = None.

(** The loan state of a book that is not on loan. *)
Definition available (b : Book) : Prop :=
  isBorrowed b = false ∧ borrowerId b = None ∧ dueDate b = None.

(** The record a successful [borrowBook], respectively [returnBook], leaves
    in place of [b]: the result of its three field assignments. *)
Definition borrowed (now : Z) (u : string) (b : Book) : Book :=
  set_dueDate (Some (ISO (now + 14 * 24 * 60 * 60 * 1000)))
    (set_borrowerId (Some u) (set_isBorrowed true b)).

(** The record a [borrowBook] leaves when it fails on the date: the result
    of its first two field assignments. *)
Definition half_borrowed (u : string) (b : Book) : Book :=
  set_borrowerId (Some u) (set_isBorrowed true b).

Definition cleared (b : Book) : Book :=
  set_dueDate None (set_borrowerId None (set_isBorrowed false b)).

(** The second seed record. *)
Definition seed_1984 : Book :=
  mkBook "2" "1984" "George Orwell" "Dystopian" false None None.

(** The seed array after user ["u"] borrowed book ["2"] at time [0]. *)
Definition books_on_loan : list Book := (borrowBook 0 "2" "u" books).2.

(** A sequence of calls, run from left to right. *)
Definition run_ops (ops : list Op) (s : list Book) : list Book :=
  foldl (λ s o, (exec o s).2) s ops.

(** [Math.random()] keeps its contract: the number drawn is in [0, 1). *)
Definition well_drawn (o : Op) : Prop :=
  match o with
  | Add random _ => (0 <= random)%Q ∧ (random < 1)%Q
  | _ => True
  end.

(** The ids [addBook] can generate, which include the three seed ids. *)
Definition generated_id (i : string) : Prop :=
  ∃ n : Z, 0 ≤ n ≤ 10000 ∧ i = pretty n.

(** What describes a book, and what describes its loan. *)
Definition description (b : Book) : string * string * string * string :=
  (id b, title b, author b, genre b).
Definition loan (b : Book) : bool * option string * option ISOString :=
  (isBorrowed b, borrowerId b, dueDate b).

(** Two records that share an id, for examples. *)
Definition twins : list Book := [
  mkBook "7" "Emma" "Jane Austen" "Classic" false None None;
  mkBook "7" "Persuasion" "Jane Austen" "Classic" false None None
].

(** * Properties *)

(** ** What each operation computes *)

(** The operations run to a closed form: one lookup, then either a throw on
    the untouched array or a single replacement of the found record. *)

Lemma updateBook_run i p s :
  updateBook i p s =
  match findBook i s with
  | None => (inl (NotFoundError i), s)
  | Some (k, b) =>
      let b' := mkBook (id b) (default (title b) (p_title p))
                       (default (author b) (p_author p))
                       (default (genre b) (p_genre p))
                       (isBorrowed b) (borrowerId b) (dueDate b) in
      (inr b', <[k := b']> s)
  end.
Proof.
  unfold updateBook, find, mbind, Svc_bind.
  destruct (findBook i s) as [[k b]|]; reflexivity.
Qed.

Lemma deleteBook_run i s :
  deleteBook i s =
  match findBook i s with
  | None => (inr false, s)
  | Some (k, _) => (inr true, delete k s)
  end.
Proof.
  unfold deleteBook, find, mbind, Svc_bind.
  destruct (findBook i s) as [[k b]|]; reflexivity.
Qed.

Lemma borrowBook_run now i u s :
  borrowBook now i u s =
  match findBook i s with
  | None => (inl (NotFoundError i), s)
  | Some (k, b) =>
      if isBorrowed b then (inl (AlreadyBorrowedError i), s)
      else if decide (valid_time (now + 14 * 24 * 60 * 60 * 1000))
      then (inr (borrowed now u b), <[k := borrowed now u b]> s)
      else (inl RangeError, <[k := half_borrowed u b]> s)
  end.
Proof.
  unfold borrowBook, find, toISOString, mbind, Svc_bind.
  destruct (findBook i s) as [[k b]|]; [|reflexivity].
  destruct (isBorrowed b); [reflexivity|].
  cbn. case_decide; cbn; by rewrite !list_insert_insert_eq.
Qed.

Lemma returnBook_run now i u s :
  returnBook now i u s =
  match findBook i s with
  | None => (inl (NotFoundError i), s)
  | Some (k, b) =>
      if isBorrowed b then
        if decide (borrowerId b = Some u) then
          (inr (mkReturnedBook (cleared b)
                  (if decide (penaltyOf now (dueDate b) > 0)
                   then Some (penaltyOf now (dueDate b)) else None)),
           <[k := cleared b]> s)
        else (inl (WrongBorrowerError i), s)
      else (inl (NotBorrowedError i), s)
  end.
Proof.
  unfold returnBook, find, mbind, Svc_bind.
  destruct (findBook i s) as [[k b]|]; [|reflexivity].
  destruct (isBorrowed b); [|reflexivity]. cbn.
  destruct (decide (borrowerId b = Some u)) as [Hu|Hu].
  - rewrite bool_decide_eq_false_2 by (intros ?; contradiction).
    cbn. rewrite !list_insert_insert_eq.
    by destruct (decide (penaltyOf now (dueDate b) > 0)).
  - by rewrite bool_decide_eq_true_2.
Qed.

(** ** Days late *)

Lemma daysLate_Z now due :
  daysLate now due = - ((due - now) / 86400000).
Proof.
  unfold daysLate, JS.Math_ceil, Qceiling, Qdiv.
  change (/ inject_Z (24 * 60 * 60 * 1000))%Q with (1 # 86400000)%Q.
  unfold Qfloor. cbn. f_equal. f_equal. lia.
Qed.

Lemma daysLate_iff now due d :
  daysLate now due = d ↔
  (d - 1) * 86400000 < now - due ≤ d * 86400000.
Proof.
  rewrite daysLate_Z.
  pose proof (Z.div_mod (due - now) 86400000 ltac:(lia)).
  pose proof (Z.mod_pos_bound (due - now) 86400000 ltac:(lia)).
  lia.
Qed.

(** X27. For a time and a due date at most 2^53 milliseconds apart,
    [daysLate] is the least number of whole days that covers the time
    elapsed since the due date: a started day counts as a day, the due
    instant itself as day 0, and a return before the due date gives a
    number that is zero or negative. *)
Theorem daysLate_spec now due d :
  exact_span now due →
  daysLate now due = d ↔
  (d - 1) * 86400000 < now - due ≤ d * 86400000.
Proof. intros _. apply daysLate_iff. Qed.

Lemma penaltyOf_Some now due :
  penaltyOf now (Some due) =
  let d := daysLate now (getTime due) in
  if decide (d > 14) then (d - 14) * 2 else 0.
Proof.
  cbn. repeat case_decide; lia.
Qed.


(** ** Lookup by id *)

Lemma findBook_Some i (s : list Book) k b :
  findBook i s = Some (k, b) ↔
  s !! k = Some b ∧ id b = i ∧
  ∀ j b', s !! j = Some b' → (j < k)%nat → id b' ≠ i.
Proof. apply (list_find_Some (λ b, id b = i)). Qed.

Lemma findBook_None i (s : list Book) :
  findBook i s = None ↔ Forall (λ b, id b ≠ i) s.
Proof. apply (list_find_None (λ b, id b = i)). Qed.

Lemma findBook_lookup i (s : list Book) k b :
  findBook i s = Some (k, b) → s !! k = Some b ∧ id b = i.
Proof. rewrite findBook_Some. tauto. Qed.

(** Replacing the found record by one with the same id does not change
    what the lookup finds, up to the new contents. *)
Lemma findBook_insert_same_id i (s : list Book) k b b' :
  findBook i s = Some (k, b) → id b' = id b →
  findBook i (<[k := b']> s) = Some (k, b').
Proof.
  rewrite !findBook_Some. intros (Hk & Hid & Hmin) Hid'.
  split; [|split].
  - apply list_lookup_insert_eq. by eapply lookup_lt_Some.
  - congruence.
  - intros j c Hj Hlt. rewrite list_lookup_insert_ne in Hj by lia. eauto.
Qed.

(** ** Borrowing *)

(** C4. [borrowBook] throws the not-found error when no book has the given
    id, throws the already-borrowed error when the book found is on loan,
    and otherwise, the day 14 days after the current time being a valid
    date, marks that book as borrowed by the given borrower, due on that
    day, and returns it as stored. *)
Theorem borrowBook_spec now i u (s : list Book) :
  (Forall (λ b, id b ≠ i) s →
   borrowBook now i u s = (inl (NotFoundError i), s)) ∧
  (∀ k b, findBook i s = Some (k, b) → isBorrowed b = true →
   borrowBook now i u s = (inl (AlreadyBorrowedError i), s)) ∧
  (∀ k b, findBook i s = Some (k, b) → isBorrowed b = false →
   valid_time (now + 14 * 86400000) →
   ∃ b', borrowBook now i u s = (inr b', <[k := b']> s) ∧
         isBorrowed b' = true ∧
         borrowerId b' = Some u ∧
         dueDate b' = Some (ISO (now + 14 * 86400000)) ∧
         id b' = id b ∧ title b' = title b ∧
         author b' = author b ∧ genre b' = genre b).
Proof.
  rewrite borrowBook_run. split; [|split].
  - intros Hnone. apply findBook_None in Hnone. by rewrite Hnone.
  - intros k b -> ->. reflexivity.
  - intros k b -> -> Hvalid. rewrite decide_True by exact Hvalid.
    exists (borrowed now u b). by repeat split.
Qed.

Lemma borrowBook_spec_witness :
  borrowBook 5 "9" "u" books = (inl (NotFoundError "9"), books) ∧
  borrowBook 5 "2" "v" books_on_loan
    = (inl (AlreadyBorrowedError "2"), books_on_loan) ∧
  ∃ b', borrowBook 5 "2" "u" books = (inr b', <[1%nat := b']> books) ∧
        isBorrowed b' = true ∧ borrowerId b' = Some "u" ∧
        dueDate b' = Some (ISO (5 + 14 * 86400000)).
Proof.
  split; [|split].
  - apply (proj1 (borrowBook_spec 5 "9" "u" books)).
    repeat constructor; discriminate.
  - apply (proj1 (proj2 (borrowBook_spec 5 "2" "v" books_on_loan))
             1%nat (borrowed 0 "u" seed_1984));
      reflexivity.
  - destruct (proj2 (proj2 (borrowBook_spec 5 "2" "u" books))
                1%nat seed_1984 eq_refl eq_refl)
      as (b' & Hrun & Hb & Hu & Hd & _).
    { unfold valid_time. lia. }
    exists b'. repeat split; assumption.
Defined.

(** ** Returning *)

(** C5. [returnBook] throws the not-found error when no book has the given
    id, the not-borrowed error when the book found is not on loan, and the
    wrong-borrower error when it is on loan to somebody else. *)
Theorem returnBook_errors now i u (s : list Book) :
  (Forall (λ b, id b ≠ i) s →
   returnBook now i u s = (inl (NotFoundError i), s)) ∧
  (∀ k b, findBook i s = Some (k, b) → isBorrowed b = false →
   returnBook now i u s = (inl (NotBorrowedError i), s)) ∧
  (∀ k b, findBook i s = Some (k, b) → isBorrowed b = true →
   borrowerId b ≠ Some u →
   returnBook now i u s = (inl (WrongBorrowerError i), s)).
Proof.
  rewrite returnBook_run. split; [|split].
  - intros Hnone. apply findBook_None in Hnone. by rewrite Hnone.
  - intros k b -> ->. reflexivity.
  - intros k b -> -> Hu. by rewrite decide_False.
Qed.

Lemma returnBook_errors_witness :
  returnBook 5 "9" "u" books = (inl (NotFoundError "9"), books) ∧
  returnBook 5 "2" "u" books = (inl (NotBorrowedError "2"), books) ∧
  returnBook 5 "2" "v" books_on_loan
    = (inl (WrongBorrowerError "2"), books_on_loan).
Proof.
  split; [|split].
  - apply (proj1 (returnBook_errors 5 "9" "u" books)).
    repeat constructor; discriminate.
  - apply (proj1 (proj2 (returnBook_errors 5 "2" "u" books))
             1%nat seed_1984);
      reflexivity.
  - apply (proj2 (proj2 (returnBook_errors 5 "2" "v" books_on_loan))
             1%nat (borrowed 0 "u" seed_1984));
      [reflexivity | reflexivity | discriminate].
Defined.

(** C1. A return that succeeds found a book that was on loan to the given
    borrower. Let [d] be the number of days late, the ceiling of the time
    elapsed since that book's due date divided by one day, that is the
    integer with [(d - 1) days < now - dueDate <= d days], the two times
    being at most 2^53 milliseconds apart. Up to 14 days the returned
    record has no penalty field, and beyond 14 days it has the penalty
    field [(d - 14) * 2]. *)
Theorem returnBook_penalty now i u (s : list Book) r s' :
  returnBook now i u s = (inr r, s') →
  ∃ k b, findBook i s = Some (k, b) ∧
         isBorrowed b = true ∧ borrowerId b = Some u ∧
         ∀ due d, dueDate b = Some due →
           exact_span now (getTime due) →
           (d - 1) * 86400000 < now - getTime due ≤ d * 86400000 →
           (d ≤ 14 → penalty r = None) ∧
           (d > 14 → penalty r = Some ((d - 14) * 2)).
Proof.
  rewrite returnBook_run.
  destruct (findBook i s) as [[k b]|]; [|discriminate].
  destruct (isBorrowed b) eqn:Hb; [|discriminate].
  destruct (decide (borrowerId b = Some u)) as [Hu|]; [|discriminate].
  intros [= <- <-]. exists k, b. split_and!; [done..|].
  intros due d Hdue _ Hd%daysLate_iff. cbn.
  rewrite Hdue, penaltyOf_Some. cbn. rewrite Hd.
  split; intros Hlate.
  - rewrite (decide_False (P := d > 14)) by lia.
    by rewrite decide_False.
  - rewrite (decide_True (P := d > 14)) by lia.
    by rewrite decide_True by lia.
Qed.

Lemma returnBook_penalty_witness :
  (16 ≤ 14 → Some 4 = None) ∧
  (16 > 14 → Some 4 = Some ((16 - 14) * 2)).
Proof.
  destruct (returnBook_penalty (30 * 86400000) "2" "u" books_on_loan
              (mkReturnedBook seed_1984 (Some 4)) books eq_refl)
    as (k & b & Hfind & _ & _ & Hpenalty).
  injection Hfind as <- <-.
  apply (Hpenalty (ISO (14 * 86400000)) 16).
  - reflexivity.
  - unfold exact_span. cbn. lia.
  - cbn. lia.
Defined.

(** Sixteen days late costs 4, and exactly fourteen days late is free. *)
Example returnBook_16_days_late :
  daysLate (30 * 86400000) (14 * 86400000) = 16 ∧
  (returnBook (30 * 86400000) "2" "u" books_on_loan).1
    = inr (mkReturnedBook seed_1984 (Some 4)) ∧
  (returnBook (28 * 86400000) "2" "u" books_on_loan).1
    = inr (mkReturnedBook seed_1984 None).
Proof. split_and!; reflexivity. Qed.

(** ** Adding *)

(** The generated id is the decimal form of an integer from 0 to 10000. *)
Lemma toFixed0_random_range (random : Q) :
  (0 <= random)%Q → (random < 1)%Q →
  ∃ n : Z, 0 ≤ n ≤ 10000 ∧ JS.toFixed0 (random * 10000)%Q = pretty n.
Proof.
  intros H0 H1. unfold JS.toFixed0.
  exists (Qfloor (random * 10000 + (1 # 2))%Q). split; [|reflexivity].
  split.
  - change 0 with (Qfloor 0). apply Qfloor_resp_le.
    apply Qle_trans with (random * 10000)%Q.
    + apply Qmult_le_0_compat; [assumption|discriminate].
    + rewrite <- (Qplus_0_r (random * 10000)) at 1.
      apply Qplus_le_r. discriminate.
  - apply Z.lt_succ_r. rewrite Zlt_Qlt.
    eapply Qle_lt_trans; [apply Qfloor_le|].
    apply Qlt_le_trans with (1 * 10000 + (1 # 2))%Q; [|discriminate].
    apply Qplus_lt_l, Qmult_lt_r; [reflexivity|assumption].
Qed.

(** C2, as the code has it. With non-empty title, author and genre,
    [addBook] appends to the array, and returns, a record that is not
    borrowed and whose id is the decimal form of an integer from 0 to 10000
    read off the random number; the id is not compared with the ids in
    use. *)
Theorem addBook_appends (random : Q) d (s : list Book) :
  new_title d ≠ EmptyString → new_author d ≠ EmptyString →
  new_genre d ≠ EmptyString →
  ∃ b, addBook random d s = (inr b, s ++ [b]) ∧
       isBorrowed b = false ∧ borrowerId b = None ∧ dueDate b = None ∧
       title b = new_title d ∧ author b = new_author d ∧
       genre b = new_genre d ∧
       ((0 <= random)%Q → (random < 1)%Q →
        ∃ n : Z, 0 ≤ n ≤ 10000 ∧ id b = pretty n).
Proof.
  intros Ht Ha Hg. unfold addBook, JS.falsy.
  rewrite !bool_decide_eq_false_2 by assumption. cbn.
  eexists. split; [reflexivity|]. cbn. split_and!; try reflexivity.
  apply toFixed0_random_range.
Qed.

Lemma addBook_appends_witness :
  ∃ b, addBook (1 # 8192) (mkNewBook "Emma" "Jane Austen" "Classic") books
         = (inr b, books ++ [b]) ∧
       isBorrowed b = false ∧ borrowerId b = None ∧ dueDate b = None ∧
       title b = "Emma"%string ∧ author b = "Jane Austen"%string ∧
       genre b = "Classic"%string ∧
       ((0 <= 1 # 8192)%Q → (1 # 8192 < 1)%Q →
        ∃ n : Z, 0 ≤ n ≤ 10000 ∧ id b = pretty n).
Proof.
  apply (addBook_appends (1 # 8192)
           (mkNewBook "Emma" "Jane Austen" "Classic") books);
    discriminate.
Defined.

(** C2, as stated, fails: when [Math.random()] returns 2^-13 the product
    is 1.220703125, the generated id is ["1"], and the first seed record
    already has that id. *)
Lemma addBook_id_not_fresh :
  ¬ (∀ b s',
       addBook (1 # 8192) (mkNewBook "Emma" "Jane Austen" "Classic") books
         = (inr b, s') →
       isBorrowed b = false ∧
       Forall (λ b0, id b0 ≠ id b) books ∧
       s' = books ++ [b]).
Proof.
  intros Hclaim.
  destruct (Hclaim (mkBook "1" "Emma" "Jane Austen" "Classic" false None None)
                   (books ++ [mkBook "1" "Emma" "Jane Austen" "Classic"
                                     false None None]))
    as (_ & Hfresh & _); [vm_compute; reflexivity|].
  apply Forall_cons_1 in Hfresh as [Hne _]. by apply Hne.
Qed.

(** ** Updating *)

(** C3. When a book with the given id exists, [updateBook] leaves its id,
    borrowed flag, borrower and due date as they were whatever the caller
    supplied for them, takes title, author and genre from the caller where
    supplied, returns the record as stored, and touches no other
    position of the array. *)
Theorem updateBook_frame i p (s : list Book) k b :
  findBook i s = Some (k, b) →
  ∃ b', updateBook i p s = (inr b', <[k := b']> s) ∧
        id b' = id b ∧ isBorrowed b' = isBorrowed b ∧
        borrowerId b' = borrowerId b ∧ dueDate b' = dueDate b ∧
        title b' = default (title b) (p_title p) ∧
        author b' = default (author b) (p_author p) ∧
        genre b' = default (genre b) (p_genre p) ∧
        length (<[k := b']> s) = length s ∧
        ∀ j, j ≠ k → <[k := b']> s !! j = s !! j.
Proof.
  intros Hfind. rewrite updateBook_run, Hfind. cbn.
  eexists. split; [reflexivity|]. cbn. split_and!; try reflexivity.
  - apply length_insert.
  - intros j Hj. by apply list_lookup_insert_ne.
Qed.

Lemma updateBook_frame_witness :
  ∃ b', updateBook "2"
          (mkPartialBook (Some "7") (Some "Animal Farm") None None
                         (Some true) (Some "mallory") (Some (ISO 0)))
          books = (inr b', <[1%nat := b']> books) ∧
        id b' = "2"%string ∧ isBorrowed b' = false ∧
        borrowerId b' = None ∧ dueDate b' = None ∧
        title b' = "Animal Farm"%string ∧
        author b' = "George Orwell"%string ∧
        genre b' = "Dystopian"%string ∧
        length (<[1%nat := b']> books) = 3%nat ∧
        ∀ j, j ≠ 1%nat → <[1%nat := b']> books !! j = books !! j.
Proof.
  apply (updateBook_frame "2"
           (mkPartialBook (Some "7") (Some "Animal Farm") None None
                          (Some true) (Some "mallory") (Some (ISO 0)))
           books 1%nat seed_1984).
  reflexivity.
Defined.

(** ** Recommendations *)

(** C6. [getRecommendations] never throws and leaves the array alone; it
    returns the records at positions 0, 1 and 2 of the array, in that
    order, as far as they exist, hence at most three. *)
Theorem getRecommendations_spec (s : list Book) :
  ∃ r, getRecommendations s = (inr r, s) ∧
       (length r ≤ 3)%nat ∧
       length r = (3 `min` length s)%nat ∧
       (∀ j, (j < 3)%nat → r !! j = s !! j) ∧
       (∀ j, (3 ≤ j)%nat → r !! j = None).
Proof.
  exists (take 3 s). unfold getRecommendations, JS.slice0.
  split_and!; [reflexivity| | | |].
  - rewrite length_take. lia.
  - apply length_take.
  - intros j Hj. by apply lookup_take_lt.
  - intros j Hj. by apply lookup_take_ge.
Qed.

Lemma getRecommendations_spec_witness :
  ∃ r, getRecommendations (books ++ [seed_1984]) = (inr r, books ++ [seed_1984]) ∧
       (length r ≤ 3)%nat ∧
       length r = (3 `min` 4)%nat ∧
       (∀ j, (j < 3)%nat → r !! j = (books ++ [seed_1984]) !! j) ∧
       (∀ j, (3 ≤ j)%nat → r !! j = None).
Proof. apply (getRecommendations_spec (books ++ [seed_1984])). Defined.

(** ** Sorting *)

Lemma StronglySorted_mono {A} (R R' : relation A) l :
  (∀ x y, R x y → R' x y) → StronglySorted R l → StronglySorted R' l.
Proof.
  intros HR. induction 1 as [|x l Hl IH Hx]; constructor; [done|].
  eapply Forall_impl; [exact Hx|]. auto.
Qed.

Section sort_facts.
Context {A : Type} (cmp : A → A → Z).

Local Abbreviation before := (λ x y, cmp x y ≤ 0).

Lemma sort_insert_Permutation x l : JS.sort_insert cmp x l ≡ₚ x :: l.
Proof.
  induction l as [|y l IH]; cbn; [done|].
  case_decide; [done|]. rewrite IH. apply Permutation_swap.
Qed.

Lemma sort_Permutation l : JS.sort cmp l ≡ₚ l.
Proof.
  induction l as [|x l IH]; cbn; [done|].
  fold (JS.sort cmp l). by rewrite sort_insert_Permutation, IH.
Qed.

Hypothesis cmp_total : ∀ x y, ¬ cmp x y ≤ 0 → cmp y x ≤ 0.
Hypothesis cmp_trans : ∀ x y z, cmp x y ≤ 0 → cmp y z ≤ 0 → cmp x z ≤ 0.

Lemma sort_insert_sorted x l :
  StronglySorted before l → StronglySorted before (JS.sort_insert cmp x l).
Proof.
  induction 1 as [|y l Hl IH Hy]; cbn.
  - repeat constructor.
  - case_decide as Hxy.
    + constructor; [by constructor|].
      constructor; [done|].
      eapply Forall_impl; [exact Hy|]. cbn. eauto.
    + constructor; [done|].
      rewrite sort_insert_Permutation. constructor; [|done].
      by apply cmp_total.
Qed.

Lemma sort_sorted l : StronglySorted before (JS.sort cmp l).
Proof.
  induction l as [|x l IH]; cbn; [constructor|].
  by apply sort_insert_sorted.
Qed.
End sort_facts.

(** ** Popular books *)

Lemma byCountDesc_sorted (table : list (string * Z)) :
  StronglySorted (λ a b, b.2 ≤ a.2) (JS.sort Variant.byCountDesc table).
Proof.
  eapply StronglySorted_mono;
    [|apply (sort_sorted Variant.byCountDesc)].
  all: unfold Variant.byCountDesc; cbn; intros; lia.
Qed.

Lemma booksInGenre_spec (s : list Book) g :
  (length (Variant.booksInGenre s g) ≤ 10)%nat ∧
  Forall (λ b, genre b = g) (Variant.booksInGenre s g) ∧
  Variant.booksInGenre s g `sublist_of` s.
Proof.
  unfold Variant.booksInGenre, JS.slice0. split_and!.
  - rewrite length_take. lia.
  - apply Forall_take, Forall_forall. intros b Hb.
    by apply list_elem_of_filter in Hb as [? _].
  - etrans; [apply sublist_take|apply sublist_filter].
Qed.

(** C7. [getPopularBooks] orders the entries of the mock table by
    decreasing count, keeps the genres of the first three, which are
    Dystopian, Classic and Fiction in this order, and returns the first ten
    books of each of these genres, genre after genre; the array is left
    alone. *)
Theorem getPopularBooks_spec (s : list Book) :
  let table := Variant.getBorrowCountsLast6Months in
  let ranked := JS.sort Variant.byCountDesc table in
  ranked ≡ₚ table ∧
  StronglySorted (λ a b, b.2 ≤ a.2) ranked ∧
  Variant.topGenresOf table = (take 3 ranked).*1 ∧
  Variant.topGenresOf table = ["Dystopian"; "Classic"; "Fiction"]%string ∧
  Variant.getPopularBooks s =
    (inr (take 10 (filter (λ b, genre b = "Dystopian"%string) s) ++
          take 10 (filter (λ b, genre b = "Classic"%string) s) ++
          take 10 (filter (λ b, genre b = "Fiction"%string) s)), s).
Proof.
  cbn zeta. split_and!.
  - apply sort_Permutation.
  - apply byCountDesc_sorted.
  - reflexivity.
  - reflexivity.
  - unfold Variant.getPopularBooks.
    change (Variant.topGenresOf Variant.getBorrowCountsLast6Months)
      with ["Dystopian"; "Classic"; "Fiction"]%string.
    cbn [foldl app]. unfold Variant.booksInGenre, JS.slice0.
    by rewrite (assoc_L (++)).
Qed.

(** On the seed array the popular books are the three seed records, the
    Dystopian one first. *)
Example getPopularBooks_seed :
  (Variant.getPopularBooks books).1 =
  inr [seed_1984;
       mkBook "3" "To Kill a Mockingbird" "Harper Lee" "Classic" false None None;
       mkBook "1" "The Great Gatsby" "F. Scott Fitzgerald" "Fiction" false None None].
Proof. reflexivity. Qed.

(** ** Failure leaves the array alone *)

(** C10. Whenever [addBook], [updateBook], [borrowBook] or [returnBook]
    throws one of the five errors of the service (validation, not found,
    already borrowed, not borrowed, wrong borrower), the array it leaves is
    the array it was given; [addBook], [updateBook] and [returnBook] throw
    no other error, and [deleteBook] does not throw at all. *)
Theorem throw_leaves_books (s : list Book) :
  (∀ random d e s', addBook random d s = (inl e, s') →
     service_error e ∧ s' = s) ∧
  (∀ i p e s', updateBook i p s = (inl e, s') → service_error e ∧ s' = s) ∧
  (∀ i e s', deleteBook i s ≠ (inl e, s')) ∧
  (∀ now i u e s', borrowBook now i u s = (inl e, s') →
     service_error e → s' = s) ∧
  (∀ now i u e s', returnBook now i u s = (inl e, s') →
     service_error e ∧ s' = s).
Proof.
  split_and!.
  - intros random d e s'. unfold addBook.
    destruct (_ || _); cbn; [|discriminate]. by intros [= <- <-].
  - intros i p e s'. rewrite updateBook_run.
    destruct (findBook i s) as [[k b]|]; cbn; [discriminate|].
    by intros [= <- <-].
  - intros i e s'. rewrite deleteBook_run.
    destruct (findBook i s) as [[k b]|]; discriminate.
  - intros now i u e s'. rewrite borrowBook_run.
    destruct (findBook i s) as [[k b]|]; [|by intros [= _ <-]].
    destruct (isBorrowed b); [by intros [= _ <-]|].
    case_decide; [discriminate|]. by intros [= <- _] [].
  - intros now i u e s'. rewrite returnBook_run.
    destruct (findBook i s) as [[k b]|]; [|by intros [= <- <-]].
    destruct (isBorrowed b); [|by intros [= <- <-]].
    case_decide; [discriminate|by intros [= <- <-]].
Qed.

Lemma throw_leaves_books_witness :
  (∃ e s', addBook 0%Q (mkNewBook "" "Jane Austen" "Classic") books
             = (inl e, s') ∧ service_error e ∧ s' = books) ∧
  (∃ e s', updateBook "9" (mkPartialBook None (Some "Emma") None None
                                         None None None) books
             = (inl e, s') ∧ service_error e ∧ s' = books) ∧
  (∃ e s', borrowBook 5 "2" "v" books_on_loan = (inl e, s') ∧
           s' = books_on_loan) ∧
  (∃ e s', returnBook 5 "2" "v" books_on_loan = (inl e, s') ∧
           service_error e ∧ s' = books_on_loan).
Proof.
  destruct (throw_leaves_books books) as (Hadd & Hupd & _ & _ & _).
  destruct (throw_leaves_books books_on_loan) as (_ & _ & _ & Hbor & Hret).
  split_and!.
  - exists ValidationError, books. split; [reflexivity|].
    apply (Hadd 0%Q (mkNewBook "" "Jane Austen" "Classic") ValidationError).
    reflexivity.
  - exists (NotFoundError "9"), books. split; [reflexivity|].
    apply (Hupd "9" (mkPartialBook None (Some "Emma") None None None None None)
                (NotFoundError "9")).
    reflexivity.
  - exists (AlreadyBorrowedError "2"), books_on_loan. split; [reflexivity|].
    apply (Hbor 5 "2" "v" (AlreadyBorrowedError "2")); [reflexivity|exact I].
  - exists (WrongBorrowerError "2"), books_on_loan. split; [reflexivity|].
    apply (Hret 5 "2" "v" (WrongBorrowerError "2")). reflexivity.
Defined.

(** The one failure that is not atomic: a loan whose due date would not be
    a valid date throws the range error after the record was marked as
    borrowed. *)
Example borrowBook_range_error :
  borrowBook 8640000000000000 "2" "u" books
  = (inl RangeError,
     <[1%nat := mkBook "2" "1984" "George Orwell" "Dystopian"
                       true (Some "u") None]> books).
Proof. reflexivity. Qed.

(** ** The loan invariant *)

Lemma loan_ok_consistent b : loan_ok b → consistent b.
Proof.
  unfold loan_ok, consistent.
  destruct (isBorrowed b); intros [H1 H2].
  - split; [tauto|discriminate].
  - rewrite H1, H2. split; [|done].
    split; intros []; discriminate.
Qed.

Lemma loan_ok_borrowed now u b : loan_ok (borrowed now u b).
Proof. cbn. eauto. Qed.

Lemma loan_ok_cleared b : loan_ok (cleared b).
Proof. by cbn. Qed.

(** While the clock is in range, every operation, whether it returns or
    throws, keeps the loan state of every record in order. *)
Lemma exec_loan_ok o (s : list Book) :
  clock_ok o → Forall loan_ok s → Forall loan_ok (exec o s).2.
Proof.
  intros Ho Hs. destruct o as [random d|i p|i|now i u|now i u]; cbn.
  - unfold addBook. destruct (_ || _); cbn; [done|].
    apply Forall_app. split; [done|]. by repeat constructor.
  - rewrite updateBook_run.
    destruct (findBook i s) as [[k b]|] eqn:Hfind; cbn; [|done].
    apply Forall_insert; [done|].
    apply findBook_lookup in Hfind as [Hk _].
    apply (Forall_lookup_1 _ _ _ _ Hs Hk).
  - rewrite deleteBook_run.
    destruct (findBook i s) as [[k b]|]; cbn; [|done].
    by apply Forall_delete.
  - rewrite borrowBook_run.
    destruct (findBook i s) as [[k b]|]; cbn; [|done].
    destruct (isBorrowed b); cbn; [done|].
    rewrite decide_True by exact Ho. cbn.
    apply Forall_insert; [done|]. apply loan_ok_borrowed.
  - rewrite returnBook_run.
    destruct (findBook i s) as [[k b]|]; cbn; [|done].
    destruct (isBorrowed b); cbn; [|done].
    case_decide; cbn; [|done].
    apply Forall_insert; [done|]. apply loan_ok_cleared.
Qed.

Lemma reachable_loan_ok (s : list Book) :
  reachable_dated s → Forall loan_ok s.
Proof.
  induction 1 as [|o s Ho _ IH].
  - by repeat constructor.
  - by apply exec_loan_ok.
Qed.

Lemma reachable_dated_reachable (s : list Book) :
  reachable_dated s → reachable s.
Proof. induction 1; by constructor. Qed.

(** Whatever the clock, a record that is not borrowed carries no loan. *)
Lemma exec_idle_ok o (s : list Book) :
  Forall idle_ok s → Forall idle_ok (exec o s).2.
Proof.
  intros Hs. destruct o as [random d|i p|i|now i u|now i u]; cbn.
  - unfold addBook. destruct (_ || _); cbn; [done|].
    apply Forall_app. split; [done|]. by repeat constructor.
  - rewrite updateBook_run.
    destruct (findBook i s) as [[k b]|] eqn:Hfind; cbn; [|done].
    apply Forall_insert; [done|].
    apply findBook_lookup in Hfind as [Hk _].
    apply (Forall_lookup_1 _ _ _ _ Hs Hk).
  - rewrite deleteBook_run.
    destruct (findBook i s) as [[k b]|]; cbn; [|done].
    by apply Forall_delete.
  - rewrite borrowBook_run.
    destruct (findBook i s) as [[k b]|]; cbn; [|done].
    destruct (isBorrowed b); cbn; [done|].
    case_decide; cbn; (apply Forall_insert; [done|]); intros [=].
  - rewrite returnBook_run.
    destruct (findBook i s) as [[k b]|]; cbn; [|done].
    destruct (isBorrowed b); cbn; [|done].
    case_decide; cbn; [|done].
    apply Forall_insert; [done|]. by intros _.
Qed.

Lemma reachable_idle_ok (s : list Book) : reachable s → Forall idle_ok s.
Proof.
  induction 1 as [|o s _ IH].
  - by repeat constructor.
  - by apply exec_idle_ok.
Qed.

(** C8. In every array reachable from the seed array by add, update,
    delete, borrow and return calls, made while the clock is in the range
    where the due date of a loan is a valid date, each record has its
    borrower and its due date both present or both absent, and both absent
    when it is not borrowed. *)
Theorem reachable_consistent (s : list Book) :
  reachable_dated s → Forall consistent s.
Proof.
  intros Hs. eapply Forall_impl; [by apply reachable_loan_ok|].
  apply loan_ok_consistent.
Qed.

Lemma reachable_consistent_witness :
  Forall consistent
    (exec (Return (30 * 86400000) "3" "u")
       (exec (Update "3" (mkPartialBook None None None None (Some false)
                                        None (Some (ISO 7))))
          (exec (Borrow 0 "3" "u")
             (exec (Delete "1")
                (exec (Add (1 # 8192) (mkNewBook "Emma" "Jane Austen" "Classic"))
                      books).2).2).2).2).2.
Proof.
  apply reachable_consistent.
  apply reachable_dated_exec; [exact I|].
  apply reachable_dated_exec; [exact I|].
  apply reachable_dated_exec; [unfold clock_ok, valid_time; lia|].
  apply reachable_dated_exec; [exact I|].
  apply reachable_dated_exec; [exact I|].
  apply reachable_dated_seed.
Defined.

(** ** Borrow, then return *)

(** C9. After a successful [borrowBook], a [returnBook] of the same book by
    the same borrower succeeds, at whatever time, and leaves the stored
    record not borrowed, with no borrower and no due date, and otherwise as
    it was before the loan. *)
Theorem borrow_then_return now now' i u (s : list Book) b1 s1 :
  borrowBook now i u s = (inr b1, s1) →
  ∃ k b r s2,
    findBook i s = Some (k, b) ∧ isBorrowed b = false ∧
    returnBook now' i u s1 = (inr r, s2) ∧
    s2 = <[k := cleared b]> s ∧
    s2 !! k = Some (cleared b) ∧
    returned r = cleared b ∧
    isBorrowed (cleared b) = false ∧
    borrowerId (cleared b) = None ∧ dueDate (cleared b) = None ∧
    id (cleared b) = id b ∧ title (cleared b) = title b ∧
    author (cleared b) = author b ∧ genre (cleared b) = genre b.
Proof.
  rewrite borrowBook_run.
  destruct (findBook i s) as [[k b]|] eqn:Hfind; [|discriminate].
  destruct (isBorrowed b) eqn:Hb; [discriminate|].
  case_decide; [|discriminate]. intros [= <- <-].
  assert (Hfind1 : findBook i (<[k := borrowed now u b]> s)
                   = Some (k, borrowed now u b))
    by (eapply findBook_insert_same_id; [exact Hfind|reflexivity]).
  apply findBook_lookup in Hfind as Hk. destruct Hk as [Hk _].
  destruct (returnBook now' i u (<[k := borrowed now u b]> s))
    as [res s2] eqn:Hret.
  rewrite returnBook_run, Hfind1 in Hret. cbn in Hret.
  rewrite decide_True in Hret by done. injection Hret as <- <-.
  rewrite list_insert_insert_eq.
  exists k, b. eexists. eexists. split_and!; try done.
  apply list_lookup_insert_eq. by eapply lookup_lt_Some.
Qed.

Lemma borrow_then_return_witness :
  ∃ k b r s2,
    findBook "2" books = Some (k, b) ∧ isBorrowed b = false ∧
    returnBook (30 * 86400000) "2" "u" books_on_loan = (inr r, s2) ∧
    s2 = <[k := cleared b]> books ∧
    s2 !! k = Some (cleared b) ∧
    returned r = cleared b ∧
    isBorrowed (cleared b) = false ∧
    borrowerId (cleared b) = None ∧ dueDate (cleared b) = None ∧
    id (cleared b) = id b ∧ title (cleared b) = title b ∧
    author (cleared b) = author b ∧ genre (cleared b) = genre b.
Proof.
  apply (borrow_then_return 0 (30 * 86400000) "2" "u" books
           (borrowed 0 "u" seed_1984) books_on_loan).
  reflexivity.
Defined.

(** On a record that was available, the round trip restores the array
    itself, also after a loan that failed on its date. *)
Lemma round_trip_restores_books now now' i u (s : list Book) k b :
  findBook i s = Some (k, b) → available b →
  ∃ r, returnBook now' i u (borrowBook now i u s).2 = (inr r, s).
Proof.
  intros Hfind (Hb & Hu & Hd).
  assert (<[k := cleared b]> s = s) as Hsame.
  { apply list_insert_id. apply findBook_lookup in Hfind as [-> _].
    f_equal. destruct b; cbn in *. by subst. }
  rewrite borrowBook_run, Hfind, Hb. case_decide; cbn [snd].
  - rewrite returnBook_run.
    rewrite (findBook_insert_same_id i s k b (borrowed now u b) Hfind eq_refl).
    cbn. rewrite decide_True by done. eexists. f_equal.
    by rewrite list_insert_insert_eq.
  - rewrite returnBook_run.
    rewrite (findBook_insert_same_id i s k b (half_borrowed u b) Hfind eq_refl).
    cbn. rewrite decide_True by done. eexists. f_equal.
    by rewrite list_insert_insert_eq.
Qed.

(** X28. In an array reached while the clock was in the range where the
    due date of a loan is a valid date, a return that succeeds always has a
    due date to count the days from: the days late are never computed from
    a missing date. *)
Lemma reachable_return_due now i u (s : list Book) r s' :
  reachable_dated s → returnBook now i u s = (inr r, s') →
  ∃ k b due, findBook i s = Some (k, b) ∧ dueDate b = Some due.
Proof.
  intros Hs%reachable_loan_ok. rewrite returnBook_run.
  destruct (findBook i s) as [[k b]|] eqn:Hfind; [|discriminate].
  destruct (isBorrowed b) eqn:Hb; [|discriminate]. intros _.
  apply findBook_lookup in Hfind as [Hk _].
  pose proof (Forall_lookup_1 _ _ _ _ Hs Hk) as Hok.
  unfold loan_ok in Hok. rewrite Hb in Hok. destruct Hok as [_ [due Hdue]].
  by exists k, b, due.
Qed.

(** ** The older [returnBook] *)

(** The variant clears the loan like the service does, but it accepts a
    return from anybody and reports no penalty. *)
Lemma Variant_returnBook_run i (s : list Book) :
  Variant.returnBook i s =
  match findBook i s with
  | None => (inl (NotFoundError i), s)
  | Some (k, b) =>
      if isBorrowed b then (inr (cleared b), <[k := cleared b]> s)
      else (inl (NotBorrowedError i), s)
  end.
Proof.
  unfold Variant.returnBook, find, mbind, Svc_bind.
  destruct (findBook i s) as [[k b]|]; [|reflexivity].
  destruct (isBorrowed b); [|reflexivity].
  cbn. by rewrite !list_insert_insert_eq.
Qed.

Example Variant_returnBook_seed :
  Variant.returnBook "2" books_on_loan = (inr seed_1984, books).
Proof. reflexivity. Qed.

(** * Further properties of the service *)

(** ** Adding, continued *)

(** X1. [addBook] throws exactly when the title, the author or the genre is
    empty; the error is then the validation error and nothing is
    appended. *)
Theorem addBook_rejects_empty (random : Q) d (s : list Book) :
  (new_title d = EmptyString ∨ new_author d = EmptyString ∨
   new_genre d = EmptyString →
   addBook random d s = (inl ValidationError, s)) ∧
  (∀ e s', addBook random d s = (inl e, s') →
     e = ValidationError ∧
     (new_title d = EmptyString ∨ new_author d = EmptyString ∨
      new_genre d = EmptyString)).
Proof.
  unfold addBook, JS.falsy. split.
  - intros Hempty.
    destruct (bool_decide_reflect (new_title d = EmptyString));
      destruct (bool_decide_reflect (new_author d = EmptyString));
      destruct (bool_decide_reflect (new_genre d = EmptyString));
      cbn; try reflexivity.
    by destruct Hempty as [?|[?|?]].
  - intros e s'.
    destruct (bool_decide_reflect (new_title d = EmptyString));
      destruct (bool_decide_reflect (new_author d = EmptyString));
      destruct (bool_decide_reflect (new_genre d = EmptyString));
      cbn; try discriminate; intros [= <- _]; auto.
Qed.

Lemma addBook_rejects_empty_witness :
  addBook (1 # 2) (mkNewBook "Emma" "" "Classic") books
    = (inl ValidationError, books) ∧
  ValidationError = ValidationError ∧
  (new_title (mkNewBook "" "Jane Austen" "") = EmptyString ∨
   new_author (mkNewBook "" "Jane Austen" "") = EmptyString ∨
   new_genre (mkNewBook "" "Jane Austen" "") = EmptyString).
Proof.
  split.
  - apply (proj1 (addBook_rejects_empty (1 # 2)
                    (mkNewBook "Emma" "" "Classic") books)).
    right. left. reflexivity.
  - apply (proj2 (addBook_rejects_empty (1 # 2)
                    (mkNewBook "" "Jane Austen" "") books)
             ValidationError books).
    reflexivity.
Defined.

Lemma findBook_app_new j (s : list Book) b :
  findBook j (s ++ [b]) =
  match findBook j s with
  | Some kb => Some kb
  | None => if decide (id b = j) then Some (length s, b) else None
  end.
Proof.
  unfold findBook.
  destruct (list_find (λ b0, id b0 = j) s) as [[k b0]|] eqn:Hfind.
  - by apply list_find_app_l.
  - rewrite list_find_app_r by done. cbn. by case_decide.
Qed.

(** X2. After a successful [addBook], a lookup by id finds what it found
    before if it found anything; the new record, at the end of the array,
    is found only under an id that no record had. A book added under an id
    in use is therefore out of reach of update, borrow, return and delete
    for as long as the older record stays. *)
Theorem addBook_lookup (random : Q) d (s : list Book) b s' j :
  addBook random d s = (inr b, s') →
  findBook j s' =
  match findBook j s with
  | Some kb => Some kb
  | None => if decide (id b = j) then Some (length s, b) else None
  end.
Proof.
  unfold addBook. destruct (_ || _); cbn; [discriminate|].
  intros [= <- <-]. apply findBook_app_new.
Qed.

Lemma addBook_lookup_witness :
  findBook "1" (books ++ [mkBook "1" "Emma" "Jane Austen" "Classic"
                                  false None None]) =
  match findBook "1" books with
  | Some kb => Some kb
  | None => if decide (id (mkBook "1" "Emma" "Jane Austen" "Classic"
                                  false None None) = "1"%string)
            then Some (length books, mkBook "1" "Emma" "Jane Austen"
                                            "Classic" false None None)
            else None
  end.
Proof.
  apply (addBook_lookup (1 # 8192) (mkNewBook "Emma" "Jane Austen" "Classic")
           books).
  reflexivity.
Defined.

(** The record added under the id ["1"] is shadowed by the seed record. *)
Example addBook_shadowed :
  findBook "1" (addBook (1 # 8192) (mkNewBook "Emma" "Jane Austen" "Classic")
                        books).2
  = Some (0%nat, mkBook "1" "The Great Gatsby" "F. Scott Fitzgerald"
                        "Fiction" false None None).
Proof. reflexivity. Qed.

(** ** Deleting *)

(** X3. [deleteBook] returns false exactly when no record has the given
    id, and the array is then as it was. *)
Theorem deleteBook_unknown i (s : list Book) :
  (Forall (λ b, id b ≠ i) s → deleteBook i s = (inr false, s)) ∧
  (∀ s', deleteBook i s = (inr false, s') →
     Forall (λ b, id b ≠ i) s ∧ s' = s).
Proof.
  rewrite deleteBook_run. split.
  - intros Hnone%findBook_None. by rewrite Hnone.
  - intros s'. destruct (findBook i s) as [[k b]|] eqn:Hfind; [discriminate|].
    intros [= <-]. split; [by apply findBook_None|done].
Qed.

Lemma deleteBook_unknown_witness :
  deleteBook "9" books = (inr false, books) ∧
  Forall (λ b, id b ≠ "9"%string) books ∧ books = books.
Proof.
  split.
  - apply (proj1 (deleteBook_unknown "9" books)).
    repeat constructor; discriminate.
  - apply (proj2 (deleteBook_unknown "9" books) books). reflexivity.
Defined.

(** X4. When a record has the given id, [deleteBook] returns true and
    removes the first such record and nothing else: the records in front of
    it keep their positions, the records behind it move up by one, and the
    array is one shorter. *)
Theorem deleteBook_removes_first i (s : list Book) k b :
  findBook i s = Some (k, b) →
  ∃ s', deleteBook i s = (inr true, s') ∧
        S (length s') = length s ∧
        (∀ j, (j < k)%nat → s' !! j = s !! j) ∧
        (∀ j, (k ≤ j)%nat → s' !! j = s !! S j) ∧
        s ≡ₚ b :: s'.
Proof.
  intros Hfind. rewrite deleteBook_run, Hfind.
  apply findBook_lookup in Hfind as [Hk _].
  exists (delete k s). split_and!; [done| | | |].
  - rewrite length_delete by eauto.
    apply lookup_lt_Some in Hk. lia.
  - intros j Hj. by apply list_lookup_delete_lt.
  - intros j Hj. by apply list_lookup_delete_ge.
  - by apply delete_Permutation.
Qed.

Lemma deleteBook_removes_first_witness :
  ∃ s', deleteBook "7" twins = (inr true, s') ∧
        S (length s') = length twins ∧
        (∀ j, (j < 0)%nat → s' !! j = twins !! j) ∧
        (∀ j, (0 ≤ j)%nat → s' !! j = twins !! S j) ∧
        twins ≡ₚ mkBook "7" "Emma" "Jane Austen" "Classic" false None None
                 :: s'.
Proof.
  apply (deleteBook_removes_first "7" twins 0%nat). reflexivity.
Defined.

(** Replacing a record by one with the same id keeps the list of ids. *)
Lemma ids_insert_same (s : list Book) k b b' :
  s !! k = Some b → id b' = id b → id <$> <[k := b']> s = id <$> s.
Proof.
  intros Hk Hid. rewrite list_fmap_insert, Hid.
  apply list_insert_id. by rewrite list_lookup_fmap, Hk.
Qed.

(** With pairwise distinct ids, removing the record found under an id
    leaves no record with that id. *)
Lemma delete_found_absent i (s : list Book) k b :
  NoDup (id <$> s) → findBook i s = Some (k, b) →
  Forall (λ b, id b ≠ i) (delete k s).
Proof.
  intros Hnodup [Hk <-]%findBook_lookup.
  rewrite <- (take_drop_middle s k b Hk) in Hnodup.
  rewrite fmap_app, fmap_cons in Hnodup.
  apply NoDup_app in Hnodup as (_ & Hfront & [Hback _]%NoDup_cons).
  rewrite delete_take_drop. apply Forall_app. split.
  - apply Forall_forall. intros x Hx Heq.
    apply (Hfront (id x)); [by apply list_elem_of_fmap_2|].
    rewrite Heq. left.
  - apply Forall_forall. intros x Hx Heq.
    apply Hback. rewrite <- Heq. by apply list_elem_of_fmap_2.
Qed.

Lemma delete_ids_NoDup (s : list Book) k :
  NoDup (id <$> s) → NoDup (id <$> delete k s).
Proof.
  rewrite list_fmap_delete. intros Hnodup.
  eapply sublist_NoDup; [exact Hnodup|apply sublist_delete].
Qed.

(** X5. In an array whose ids are pairwise distinct, a [deleteBook] that
    returned true leaves no record with that id, keeps the ids distinct,
    and makes a second [deleteBook] of the id return false. *)
Theorem deleteBook_then_absent i (s s' : list Book) :
  NoDup (id <$> s) → deleteBook i s = (inr true, s') →
  Forall (λ b, id b ≠ i) s' ∧
  NoDup (id <$> s') ∧
  deleteBook i s' = (inr false, s').
Proof.
  intros Hnodup. rewrite deleteBook_run.
  destruct (findBook i s) as [[k b]|] eqn:Hfind; [|discriminate].
  intros [= <-].
  assert (Forall (λ b0, id b0 ≠ i) (delete k s)) as Habsent
    by by eapply delete_found_absent.
  split_and!; [done|by apply delete_ids_NoDup|].
  rewrite deleteBook_run. apply findBook_None in Habsent. by rewrite Habsent.
Qed.

Lemma deleteBook_then_absent_witness :
  Forall (λ b, id b ≠ "2"%string) (delete 1%nat books) ∧
  NoDup (id <$> delete 1%nat books) ∧
  deleteBook "2" (delete 1%nat books) = (inr false, delete 1%nat books).
Proof.
  apply (deleteBook_then_absent "2" books (delete 1%nat books)).
  - apply (bool_decide_unpack _). vm_compute. exact I.
  - reflexivity.
Defined.

(** Without distinct ids the id can survive its deletion. *)
Example deleteBook_twins :
  deleteBook "7" twins
  = (inr true, [mkBook "7" "Persuasion" "Jane Austen" "Classic"
                       false None None]).
Proof. reflexivity. Qed.

(** X6. [deleteBook] does not look at the loan: with pairwise distinct ids,
    a book that was just borrowed can be deleted, and its return then fails
    with the not-found error. *)
Theorem deleted_loan_cannot_return now now' i u (s : list Book) b1 s1 :
  NoDup (id <$> s) → borrowBook now i u s = (inr b1, s1) →
  ∃ s2, deleteBook i s1 = (inr true, s2) ∧
        S (length s2) = length s ∧
        returnBook now' i u s2 = (inl (NotFoundError i), s2).
Proof.
  intros Hnodup. rewrite borrowBook_run.
  destruct (findBook i s) as [[k b]|] eqn:Hfind; [|discriminate].
  destruct (isBorrowed b); [discriminate|].
  case_decide; [|discriminate]. intros [= <- <-].
  pose proof (findBook_insert_same_id i s k b (borrowed now u b) Hfind eq_refl)
    as Hfind1.
  pose proof (findBook_lookup _ _ _ _ Hfind) as [Hk _].
  exists (delete k (<[k := borrowed now u b]> s)).
  rewrite deleteBook_run, Hfind1. split_and!; [done| |].
  - rewrite length_delete, length_insert.
    + apply lookup_lt_Some in Hk. lia.
    + apply findBook_lookup in Hfind1 as [Hk1 _]. eauto.
  - rewrite returnBook_run.
    assert (Forall (λ b0, id b0 ≠ i)
              (delete k (<[k := borrowed now u b]> s))) as Habsent.
    { eapply delete_found_absent; [|exact Hfind1].
      by rewrite (ids_insert_same s k b). }
    apply findBook_None in Habsent. by rewrite Habsent.
Qed.

Lemma deleted_loan_cannot_return_witness :
  ∃ s2, deleteBook "2" books_on_loan = (inr true, s2) ∧
        S (length s2) = length books ∧
        returnBook 9 "2" "u" s2 = (inl (NotFoundError "2"), s2).
Proof.
  apply (deleted_loan_cannot_return 0 9 "2" "u" books
           (borrowed 0 "u" seed_1984) books_on_loan).
  - apply (bool_decide_unpack _). vm_compute. exact I.
  - reflexivity.
Defined.

(** ** Updating, continued *)

(** X7. [updateBook] throws exactly when no record has the given id; the
    error is the not-found error for that id. *)
Theorem updateBook_unknown i p (s : list Book) :
  (Forall (λ b, id b ≠ i) s →
   updateBook i p s = (inl (NotFoundError i), s)) ∧
  (∀ e s', updateBook i p s = (inl e, s') →
     e = NotFoundError i ∧ Forall (λ b, id b ≠ i) s).
Proof.
  rewrite updateBook_run. split.
  - intros Hnone%findBook_None. by rewrite Hnone.
  - intros e s'. destruct (findBook i s) as [[k b]|] eqn:Hfind;
      cbn; [discriminate|].
    intros [= <- _]. split; [done|by apply findBook_None].
Qed.

Lemma updateBook_unknown_witness :
  updateBook "9" (mkPartialBook None (Some "Emma") None None None None None)
             books = (inl (NotFoundError "9"), books) ∧
  NotFoundError "9" = NotFoundError "9" ∧
  Forall (λ b, id b ≠ "9"%string) books.
Proof.
  split.
  - apply (proj1 (updateBook_unknown "9" _ books)).
    repeat constructor; discriminate.
  - apply (proj2 (updateBook_unknown "9"
                    (mkPartialBook None (Some "Emma") None None None None None)
                    books) (NotFoundError "9") books).
    reflexivity.
Defined.

(** X8. [updateBook] is idempotent: repeating a successful update with the
    same data returns the same record and leaves the array as the first
    update left it. *)
Theorem updateBook_idempotent i p (s : list Book) b' s' :
  updateBook i p s = (inr b', s') → updateBook i p s' = (inr b', s').
Proof.
  rewrite updateBook_run.
  destruct (findBook i s) as [[k b]|] eqn:Hfind; cbn; [|discriminate].
  intros [= <- <-]. rewrite updateBook_run.
  erewrite findBook_insert_same_id; [|exact Hfind|reflexivity]. cbn.
  rewrite list_insert_insert_eq.
  by destruct (p_title p), (p_author p), (p_genre p).
Qed.

Lemma updateBook_idempotent_witness :
  updateBook "2" (mkPartialBook (Some "7") (Some "Animal Farm") None None
                                (Some true) None None)
    (<[1%nat := mkBook "2" "Animal Farm" "George Orwell" "Dystopian"
                       false None None]> books)
  = (inr (mkBook "2" "Animal Farm" "George Orwell" "Dystopian"
                 false None None),
     <[1%nat := mkBook "2" "Animal Farm" "George Orwell" "Dystopian"
                       false None None]> books).
Proof.
  apply (updateBook_idempotent "2" _ books). reflexivity.
Defined.

(** X9. An update that supplies no title, author or genre changes nothing,
    whatever it supplies for the id and the loan fields: it returns the
    record found and leaves the array as it was. *)
Theorem updateBook_protected_only i p (s : list Book) k b :
  findBook i s = Some (k, b) →
  p_title p = None → p_author p = None → p_genre p = None →
  updateBook i p s = (inr b, s).
Proof.
  intros Hfind Ht Ha Hg. rewrite updateBook_run, Hfind, Ht, Ha, Hg. cbn.
  apply findBook_lookup in Hfind as [Hk _].
  assert (mkBook (id b) (title b) (author b) (genre b)
                 (isBorrowed b) (borrowerId b) (dueDate b) = b) as ->
    by by destruct b.
  by rewrite list_insert_id.
Qed.

Lemma updateBook_protected_only_witness :
  updateBook "2" (mkPartialBook (Some "7") None None None (Some true)
                                (Some "mallory") (Some (ISO 0)))
             books = (inr seed_1984, books).
Proof.
  apply (updateBook_protected_only "2" _ books 1%nat seed_1984);
    reflexivity.
Defined.

(** X10. [updateBook] never changes the id or the loan of any record of
    the array, whether it returns or throws. *)
Theorem updateBook_keeps_loans i p (s : list Book) :
  (λ b, (id b, loan b)) <$> (updateBook i p s).2
  = (λ b, (id b, loan b)) <$> s.
Proof.
  rewrite updateBook_run.
  destruct (findBook i s) as [[k b]|] eqn:Hfind; cbn; [|done].
  apply findBook_lookup in Hfind as [Hk _].
  rewrite list_fmap_insert. apply list_insert_id.
  by rewrite list_lookup_fmap, Hk.
Qed.

(** X11. [borrowBook] and [returnBook] never change the id, title, author
    or genre of any record of the array, whether they return or throw. *)
Theorem loans_keep_descriptions now i u (s : list Book) :
  description <$> (borrowBook now i u s).2 = description <$> s ∧
  description <$> (returnBook now i u s).2 = description <$> s.
Proof.
  rewrite borrowBook_run, returnBook_run.
  destruct (findBook i s) as [[k b]|] eqn:Hfind; [|done].
  apply findBook_lookup in Hfind as [Hk _].
  split.
  - destruct (isBorrowed b); [done|]. case_decide; cbn;
      rewrite list_fmap_insert; apply list_insert_id;
      by rewrite list_lookup_fmap, Hk.
  - destruct (isBorrowed b); [|done]. case_decide; [|done]. cbn.
    rewrite list_fmap_insert. apply list_insert_id.
    by rewrite list_lookup_fmap, Hk.
Qed.

(** ** Loans, continued *)

(** X12. After a successful [borrowBook], every further [borrowBook] of
    that id, by anybody and at any time, fails with the already-borrowed
    error and changes nothing. *)
Theorem borrowBook_twice now now' i u u' (s : list Book) b1 s1 :
  borrowBook now i u s = (inr b1, s1) →
  borrowBook now' i u' s1 = (inl (AlreadyBorrowedError i), s1).
Proof.
  rewrite borrowBook_run.
  destruct (findBook i s) as [[k b]|] eqn:Hfind; [|discriminate].
  destruct (isBorrowed b); [discriminate|].
  case_decide; [|discriminate]. intros [= <- <-].
  rewrite borrowBook_run.
  by erewrite findBook_insert_same_id; [|exact Hfind|reflexivity].
Qed.

Lemma borrowBook_twice_witness :
  borrowBook 9 "2" "v" books_on_loan
  = (inl (AlreadyBorrowedError "2"), books_on_loan).
Proof.
  apply (borrowBook_twice 0 9 "2" "u" "v" books (borrowed 0 "u" seed_1984)).
  reflexivity.
Defined.

(** X13. After a successful [returnBook], every further [returnBook] of
    that id, by anybody and at any time, fails with the not-borrowed error
    and changes nothing. *)
Theorem returnBook_twice now now' i u u' (s : list Book) r s1 :
  returnBook now i u s = (inr r, s1) →
  returnBook now' i u' s1 = (inl (NotBorrowedError i), s1).
Proof.
  rewrite returnBook_run.
  destruct (findBook i s) as [[k b]|] eqn:Hfind; [|discriminate].
  destruct (isBorrowed b); [|discriminate].
  case_decide; [|discriminate]. intros [= <- <-].
  rewrite returnBook_run.
  by erewrite findBook_insert_same_id; [|exact Hfind|reflexivity].
Qed.

Lemma returnBook_twice_witness :
  returnBook 9 "2" "v" books = (inl (NotBorrowedError "2"), books).
Proof.
  apply (returnBook_twice 5 9 "2" "u" "v" books_on_loan
           (mkReturnedBook seed_1984 None)).
  reflexivity.
Defined.

(** X14. [borrowBook] and [returnBook] write to no record but the first one
    with the given id: every other position of the array, and its length,
    stay as they were. *)
Theorem loan_frame now i u (s : list Book) k b :
  findBook i s = Some (k, b) →
  (∀ j, j ≠ k → (borrowBook now i u s).2 !! j = s !! j) ∧
  (∀ j, j ≠ k → (returnBook now i u s).2 !! j = s !! j) ∧
  length (borrowBook now i u s).2 = length s ∧
  length (returnBook now i u s).2 = length s.
Proof.
  intros Hfind. rewrite borrowBook_run, returnBook_run, Hfind.
  destruct (isBorrowed b); repeat case_decide; cbn;
    rewrite ?length_insert; split_and!; try done;
    intros j Hj; by rewrite list_lookup_insert_ne.
Qed.

Lemma loan_frame_witness :
  (∀ j, j ≠ 1%nat → (borrowBook 5 "2" "u" books).2 !! j = books !! j) ∧
  (∀ j, j ≠ 1%nat → (returnBook 5 "2" "u" books).2 !! j = books !! j) ∧
  length (borrowBook 5 "2" "u" books).2 = length books ∧
  length (returnBook 5 "2" "u" books).2 = length books.
Proof. apply (loan_frame 5 "2" "u" books 1%nat seed_1984). reflexivity. Defined.

Lemma penaltyOf_cases now due :
  penaltyOf now due = 0 ∨
  ∃ d, due = Some (ISO d) ∧ daysLate now d > 14 ∧
       penaltyOf now due = (daysLate now d - 14) * 2.
Proof.
  destruct due as [[d]|]; [|by left]. cbn.
  repeat case_decide; eauto with lia.
Qed.

(** X15. A penalty reported by [returnBook] is never zero or negative: it
    is an even amount of at least 2. *)
Theorem penalty_reported_positive now i u (s : list Book) r s' p :
  returnBook now i u s = (inr r, s') → penalty r = Some p →
  2 ≤ p ∧ ∃ n, p = 2 * n.
Proof.
  rewrite returnBook_run.
  destruct (findBook i s) as [[k b]|]; [|discriminate].
  destruct (isBorrowed b); [|discriminate].
  case_decide; [|discriminate]. intros [= <- _]. cbn.
  case_decide as Hpos; [|discriminate]. intros [= <-].
  destruct (penaltyOf_cases now (dueDate b)) as [H0|(d & _ & Hd & Hp)].
  - lia.
  - rewrite Hp. split; [lia|]. exists (daysLate now d - 14). lia.
Qed.

Lemma penalty_reported_positive_witness : 2 ≤ 4 ∧ ∃ n, 4 = 2 * n.
Proof.
  apply (penalty_reported_positive (30 * 86400000) "2" "u" books_on_loan
           (mkReturnedBook seed_1984 (Some 4)) books 4);
    reflexivity.
Defined.

Lemma daysLate_shift now due n :
  daysLate now (due + n * 86400000) = daysLate now due - n.
Proof.
  rewrite !daysLate_Z.
  replace (due + n * 86400000 - now) with (due - now + n * 86400000) by lia.
  rewrite Z.div_add by lia. lia.
Qed.

(** X16. Counted from the loan, the penalty starts after 28 days. A book
    borrowed at time [now] is returned by its borrower at time [now'], at
    most 2^53 milliseconds away from the due date; let [days] be the
    number of days of the loan, a started day counting as a day, that is
    the integer with [(days - 1) days < now' - now <= days days]. The
    return succeeds, without penalty when [days <= 28] and with the
    penalty [(days - 28) * 2] otherwise. *)
Theorem loan_penalty_after_28_days now now' i u (s : list Book) b1 s1 :
  borrowBook now i u s = (inr b1, s1) →
  ∃ r s2, returnBook now' i u s1 = (inr r, s2) ∧
          ∀ days, exact_span now' (now + 14 * 86400000) →
                  (days - 1) * 86400000 < now' - now ≤ days * 86400000 →
                  (days ≤ 28 → penalty r = None) ∧
                  (days > 28 → penalty r = Some ((days - 28) * 2)).
Proof.
  rewrite borrowBook_run.
  destruct (findBook i s) as [[k b]|] eqn:Hfind; [|discriminate].
  destruct (isBorrowed b); [discriminate|].
  case_decide; [|discriminate]. intros [= <- <-].
  rewrite returnBook_run.
  erewrite findBook_insert_same_id; [|exact Hfind|reflexivity]. cbn - [penaltyOf].
  rewrite decide_True by done. eexists _, _. split; [reflexivity|].
  intros days _ Hdays. cbn - [penaltyOf daysLate].
  rewrite penaltyOf_Some. cbn - [daysLate].
  replace (now + 14 * 24 * 60 * 60 * 1000) with (now + 14 * 86400000) by lia.
  rewrite daysLate_shift.
  apply daysLate_iff in Hdays. rewrite Hdays.
  split; intros Hlate.
  - rewrite (decide_False (P := _ > 14)) by lia. by rewrite decide_False.
  - rewrite (decide_True (P := _ > 14)) by lia.
    rewrite decide_True by lia. f_equal. lia.
Qed.

Lemma loan_penalty_after_28_days_witness :
  ∃ r s2, returnBook (30 * 86400000) "2" "u" books_on_loan = (inr r, s2) ∧
          ((30 ≤ 28 → penalty r = None) ∧
           (30 > 28 → penalty r = Some ((30 - 28) * 2))).
Proof.
  destruct (loan_penalty_after_28_days 0 (30 * 86400000) "2" "u" books
              (borrowed 0 "u" seed_1984) books_on_loan eq_refl)
    as (r & s2 & Hret & Hpenalty).
  exists r, s2. split; [exact Hret|].
  apply (Hpenalty 30).
  - unfold exact_span. cbn. lia.
  - lia.
Defined.

(** ** The older [returnBook], continued *)

(** X17. The older [returnBook] throws the not-found error when no record
    has the given id and the not-borrowed error when the record found is
    not on loan; otherwise it succeeds, whoever borrowed the book, stores
    the record without its loan and returns it. *)
Theorem Variant_returnBook_spec i (s : list Book) :
  (Forall (λ b, id b ≠ i) s →
   Variant.returnBook i s = (inl (NotFoundError i), s)) ∧
  (∀ k b, findBook i s = Some (k, b) → isBorrowed b = false →
   Variant.returnBook i s = (inl (NotBorrowedError i), s)) ∧
  (∀ k b, findBook i s = Some (k, b) → isBorrowed b = true →
   Variant.returnBook i s = (inr (cleared b), <[k := cleared b]> s) ∧
   available (cleared b) ∧ description (cleared b) = description b).
Proof.
  rewrite Variant_returnBook_run. split_and!.
  - intros Hnone%findBook_None. by rewrite Hnone.
  - by intros k b -> ->.
  - by intros k b -> ->.
Qed.

Lemma Variant_returnBook_spec_witness :
  Variant.returnBook "9" books = (inl (NotFoundError "9"), books) ∧
  Variant.returnBook "2" books = (inl (NotBorrowedError "2"), books) ∧
  Variant.returnBook "2" books_on_loan
    = (inr (cleared (borrowed 0 "u" seed_1984)),
       <[1%nat := cleared (borrowed 0 "u" seed_1984)]> books_on_loan).
Proof.
  split_and!.
  - apply (proj1 (Variant_returnBook_spec "9" books)).
    repeat constructor; discriminate.
  - apply (proj1 (proj2 (Variant_returnBook_spec "2" books)) 1%nat seed_1984);
      reflexivity.
  - apply (proj2 (proj2 (Variant_returnBook_spec "2" books_on_loan))
             1%nat (borrowed 0 "u" seed_1984));
      reflexivity.
Defined.

(** X18. The two versions of [returnBook] differ only on a return by
    somebody who is not the borrower: where the service returns, the older
    version returns the same record and leaves the same array; where the
    service throws the not-found or the not-borrowed error, so does the
    older version; where the service throws the wrong-borrower error, the
    older version ends the loan. *)
Theorem returnBook_versions now i u (s : list Book) :
  match returnBook now i u s with
  | (inr r, s') => Variant.returnBook i s = (inr (returned r), s')
  | (inl (WrongBorrowerError _), _) =>
      ∃ k b, findBook i s = Some (k, b) ∧ borrowerId b ≠ Some u ∧
             Variant.returnBook i s = (inr (cleared b), <[k := cleared b]> s)
  | (inl e, s') => Variant.returnBook i s = (inl e, s')
  end.
Proof.
  rewrite returnBook_run, Variant_returnBook_run.
  destruct (findBook i s) as [[k b]|]; [|done].
  destruct (isBorrowed b); [|done].
  case_decide; [done|]. by exists k, b.
Qed.

(** ** Popular books, continued *)

Lemma getPopularBooks_run (s : list Book) :
  Variant.getPopularBooks s =
  (inr (Variant.booksInGenre s "Dystopian" ++
        Variant.booksInGenre s "Classic" ++
        Variant.booksInGenre s "Fiction"), s).
Proof.
  unfold Variant.getPopularBooks.
  change (Variant.topGenresOf Variant.getBorrowCountsLast6Months)
    with ["Dystopian"; "Classic"; "Fiction"]%string.
  cbn [foldl app]. by rewrite (assoc_L (++)).
Qed.

Lemma booksInGenre_elem_of (s : list Book) g b :
  b ∈ Variant.booksInGenre s g → b ∈ s ∧ genre b = g.
Proof.
  unfold Variant.booksInGenre, JS.slice0.
  intros Hb%subseteq_take. apply list_elem_of_filter in Hb. tauto.
Qed.

(** X19. [getPopularBooks] returns at most 30 books; each of them is a
    record of the array whose genre is Dystopian, Classic or Fiction, so a
    book of any other genre is never popular. *)
Theorem getPopularBooks_sound (s : list Book) :
  ∃ r, Variant.getPopularBooks s = (inr r, s) ∧
       (length r ≤ 30)%nat ∧
       Forall (λ b, b ∈ s ∧
                    genre b ∈ ["Dystopian"; "Classic"; "Fiction"]%string) r.
Proof.
  rewrite getPopularBooks_run. eexists. split; [reflexivity|]. split.
  - rewrite !length_app.
    pose proof (proj1 (booksInGenre_spec s "Dystopian")).
    pose proof (proj1 (booksInGenre_spec s "Classic")).
    pose proof (proj1 (booksInGenre_spec s "Fiction")).
    lia.
  - rewrite !Forall_app. split_and!; apply Forall_forall;
      intros b [Hb Hg]%booksInGenre_elem_of; (split; [done|]);
      rewrite Hg, !elem_of_cons; auto.
Qed.

(** X20. A book of one of the three genres is among the popular books
    whenever the array has at most ten books of its genre. *)
Theorem getPopularBooks_complete (s : list Book) b :
  b ∈ s →
  genre b ∈ ["Dystopian"; "Classic"; "Fiction"]%string →
  (length (filter (λ b', genre b' = genre b) s) ≤ 10)%nat →
  ∃ r, Variant.getPopularBooks s = (inr r, s) ∧ b ∈ r.
Proof.
  intros Hb Hg Hlen. rewrite getPopularBooks_run.
  eexists. split; [reflexivity|].
  assert (b ∈ Variant.booksInGenre s (genre b)) as Hin.
  { unfold Variant.booksInGenre, JS.slice0. rewrite take_ge by done.
    by apply list_elem_of_filter. }
  rewrite !elem_of_app.
  apply elem_of_cons in Hg as [<-|Hg]; [by left|].
  apply elem_of_cons in Hg as [<-|Hg]; [by right; left|].
  apply elem_of_cons in Hg as [<-|Hg]; [by right; right|].
  by apply elem_of_nil in Hg.
Qed.

Lemma getPopularBooks_complete_witness :
  ∃ r, Variant.getPopularBooks books_on_loan = (inr r, books_on_loan) ∧
       borrowed 0 "u" seed_1984 ∈ r.
Proof.
  apply (getPopularBooks_complete books_on_loan (borrowed 0 "u" seed_1984)).
  - apply (bool_decide_unpack _). vm_compute. exact I.
  - apply (bool_decide_unpack _). vm_compute. exact I.
  - vm_compute. lia.
Defined.

(** X21. For any table of borrow counts, the genres ranked on top are
    those of at most three entries of the table, as many as three when the
    table has them, and no entry left out has a larger count than an entry
    chosen. *)
Theorem topGenresOf_dominates (table : list (string * Z)) :
  ∃ chosen rest,
    Variant.topGenresOf table = chosen.*1 ∧
    chosen ++ rest ≡ₚ table ∧
    length chosen = (3 `min` length table)%nat ∧
    ∀ a b, a ∈ chosen → b ∈ rest → b.2 ≤ a.2.
Proof.
  exists (take 3 (JS.sort Variant.byCountDesc table)),
         (drop 3 (JS.sort Variant.byCountDesc table)).
  split_and!.
  - reflexivity.
  - rewrite take_drop. apply sort_Permutation.
  - rewrite length_take. by rewrite (sort_Permutation _ table).
  - intros a b Ha Hb.
    pose proof (byCountDesc_sorted table) as Hsorted.
    rewrite <- (take_drop 3 (JS.sort _ table)) in Hsorted.
    by apply (StronglySorted_app_1_elem_of _ _ _ a b Hsorted).
Qed.

(** With more than three genres the least borrowed ones are left out. *)
Example topGenresOf_four :
  Variant.topGenresOf
    [("Poetry", 3); ("Fiction", 15); ("Dystopian", 25); ("Classic", 20)]%string
  = ["Dystopian"; "Classic"; "Fiction"]%string.
Proof. reflexivity. Qed.

(** ** Recommendations, continued *)

(** X22. Once the array holds three books, adding a book does not change
    the recommendations. *)
Theorem recommendations_ignore_new_books (random : Q) d (s : list Book) b s' :
  (3 ≤ length s)%nat → addBook random d s = (inr b, s') →
  (getRecommendations s').1 = (getRecommendations s).1.
Proof.
  intros Hlen. unfold addBook. destruct (_ || _); cbn; [discriminate|].
  intros [= _ <-]. unfold JS.slice0. by rewrite take_app_le.
Qed.

Lemma recommendations_ignore_new_books_witness :
  (getRecommendations
     (books ++ [mkBook "5000" "Emma" "Jane Austen" "Classic"
                       false None None])).1
  = (getRecommendations books).1.
Proof.
  apply (recommendations_ignore_new_books
           (1 # 2) (mkNewBook "Emma" "Jane Austen" "Classic") books
           (mkBook "5000" "Emma" "Jane Austen" "Classic" false None None)).
  - cbn. lia.
  - vm_compute. reflexivity.
Defined.

(** ** Reachable arrays *)

Lemma reachable_run_ops (s : list Book) :
  reachable s ↔ ∃ ops, s = run_ops ops books.
Proof.
  split.
  - induction 1 as [|o s _ [ops ->]].
    + by exists [].
    + exists (ops ++ [o]). unfold run_ops. by rewrite foldl_app.
  - intros [ops ->]. induction ops as [|o ops IH] using rev_ind.
    + constructor.
    + unfold run_ops. rewrite foldl_app. cbn. by constructor.
Qed.

(** X23. In every array reached from the seed array while the clock was in
    the range where the due date of a loan is a valid date, a record has a
    borrower exactly when it is borrowed, and a due date exactly when it
    is borrowed. *)
Theorem reachable_loan_state (s : list Book) b :
  reachable_dated s → b ∈ s →
  (isBorrowed b = true ↔ is_Some (borrowerId b)) ∧
  (isBorrowed b = true ↔ is_Some (dueDate b)).
Proof.
  intros Hs%reachable_loan_ok Hb.
  pose proof (proj1 (Forall_forall _ _) Hs b Hb) as Hok.
  unfold loan_ok in Hok. destruct (isBorrowed b).
  - destruct Hok. split; by split.
  - destruct Hok as [-> ->]. split; split; try discriminate; by intros [].
Qed.

Lemma reachable_loan_state_witness :
  (isBorrowed (borrowed 0 "u" seed_1984) = true
   ↔ is_Some (borrowerId (borrowed 0 "u" seed_1984))) ∧
  (isBorrowed (borrowed 0 "u" seed_1984) = true
   ↔ is_Some (dueDate (borrowed 0 "u" seed_1984))).
Proof.
  apply (reachable_loan_state books_on_loan).
  - apply (reachable_dated_exec (Borrow 0 "2" "u") books);
      [unfold clock_ok, valid_time; lia|apply reachable_dated_seed].
  - apply (bool_decide_unpack _). vm_compute. exact I.
Defined.

(** X24. From a reachable array, a loan and the return of the book by its
    borrower, at whatever times, lead back to the very same array. *)
Theorem reachable_round_trip now now' i u (s : list Book) b1 s1 :
  reachable s → borrowBook now i u s = (inr b1, s1) →
  ∃ r, returnBook now' i u s1 = (inr r, s).
Proof.
  intros Hs%reachable_idle_ok Hrun.
  assert (s1 = (borrowBook now i u s).2) as -> by by rewrite Hrun.
  rewrite borrowBook_run in Hrun.
  destruct (findBook i s) as [[k b]|] eqn:Hfind; [|discriminate].
  destruct (isBorrowed b) eqn:Hb; [discriminate|].
  apply (round_trip_restores_books now now' i u s k b Hfind).
  pose proof (findBook_lookup _ _ _ _ Hfind) as [Hk _].
  pose proof (Forall_lookup_1 _ _ _ _ Hs Hk) as Hok.
  destruct (Hok Hb). by split.
Qed.

Lemma reachable_round_trip_witness :
  ∃ r, returnBook (30 * 86400000) "2" "u" books_on_loan = (inr r, books).
Proof.
  apply (reachable_round_trip 0 (30 * 86400000) "2" "u" books
           (borrowed 0 "u" seed_1984) books_on_loan).
  - apply reachable_seed.
  - reflexivity.
Defined.

(** ** The ids in use *)

Lemma seed_ids_generated : Forall (λ b, generated_id (id b)) books.
Proof.
  repeat constructor.
  - exists 1. by split; [lia|].
  - exists 2. by split; [lia|].
  - exists 3. by split; [lia|].
Qed.

Lemma exec_generated_ids o (s : list Book) :
  well_drawn o →
  Forall (λ b, generated_id (id b)) s →
  Forall (λ b, generated_id (id b)) (exec o s).2.
Proof.
  intros Ho Hs. destruct o as [random d|i p|i|now i u|now i u]; cbn.
  - unfold addBook. destruct (_ || _); cbn; [done|].
    apply Forall_app. split; [done|]. constructor; [|constructor].
    destruct Ho as [H0 H1]. cbn.
    destruct (toFixed0_random_range random H0 H1) as (n & Hn & ->).
    by exists n.
  - rewrite updateBook_run.
    destruct (findBook i s) as [[k b]|] eqn:Hfind; cbn; [|done].
    apply findBook_lookup in Hfind as [Hk _].
    apply Forall_insert; [done|]. cbn.
    apply (Forall_lookup_1 _ _ _ _ Hs Hk).
  - rewrite deleteBook_run.
    destruct (findBook i s) as [[k b]|]; cbn; [|done].
    by apply Forall_delete.
  - rewrite borrowBook_run.
    destruct (findBook i s) as [[k b]|] eqn:Hfind; cbn; [|done].
    apply findBook_lookup in Hfind as [Hk _].
    destruct (isBorrowed b); cbn; [done|].
    case_decide; cbn; (apply Forall_insert; [done|]); cbn;
      apply (Forall_lookup_1 _ _ _ _ Hs Hk).
  - rewrite returnBook_run.
    destruct (findBook i s) as [[k b]|] eqn:Hfind; cbn; [|done].
    apply findBook_lookup in Hfind as [Hk _].
    destruct (isBorrowed b); cbn; [|done].
    case_decide; cbn; [|done].
    apply Forall_insert; [done|]. cbn.
    apply (Forall_lookup_1 _ _ _ _ Hs Hk).
Qed.

Lemma run_ops_generated_ids ops (s : list Book) :
  Forall well_drawn ops →
  Forall (λ b, generated_id (id b)) s →
  Forall (λ b, generated_id (id b)) (run_ops ops s).
Proof.
  intros Hops. revert s.
  induction Hops as [|o ops Ho _ IH]; intros s Hs; [done|].
  cbn. apply IH. by apply exec_generated_ids.
Qed.

(** X25. As long as [Math.random()] returns numbers in [0, 1), every id in
    the array is the decimal form of an integer from 0 to 10000, whatever
    calls were made: no call changes an id, and [addBook] generates no
    other. *)
Theorem catalog_ids_generated ops :
  Forall well_drawn ops →
  Forall (λ b, ∃ n : Z, 0 ≤ n ≤ 10000 ∧ id b = pretty n)
         (run_ops ops books).
Proof.
  intros Hops. apply (run_ops_generated_ids ops books Hops seed_ids_generated).
Qed.

Lemma catalog_ids_generated_witness :
  Forall (λ b, ∃ n : Z, 0 ≤ n ≤ 10000 ∧ id b = pretty n)
         (run_ops [Add (1 # 2) (mkNewBook "Emma" "Jane Austen" "Classic");
                   Update "5000" (mkPartialBook (Some "x") None None None
                                                None None None);
                   Borrow 0 "5000" "u"]
                  books).
Proof.
  apply catalog_ids_generated.
  apply Forall_cons. split; [split; [discriminate|reflexivity]|].
  apply Forall_cons. split; [exact I|].
  apply Forall_cons. split; [exact I|]. apply Forall_nil_2.
Defined.

(** X26. Hence the array holds at most 10001 books with pairwise distinct
    ids: from the 10002nd book on, two books share an id. *)
Theorem distinct_ids_bound ops :
  Forall well_drawn ops →
  NoDup (id <$> run_ops ops books) →
  Z.of_nat (length (run_ops ops books)) ≤ 10001.
Proof.
  intros Hops Hnodup.
  pose proof (run_ops_generated_ids ops books Hops seed_ids_generated) as Hids.
  assert (id <$> run_ops ops books ⊆+ pretty <$> seqZ 0 10001) as Hsub.
  { apply NoDup_submseteq; [done|].
    intros i (b & -> & Hb)%list_elem_of_fmap.
    destruct (proj1 (Forall_forall _ _) Hids b Hb) as (n & Hn & ->).
    apply list_elem_of_fmap_2, elem_of_seqZ. lia. }
  apply submseteq_length in Hsub.
  rewrite !length_fmap, length_seqZ in Hsub. lia.
Qed.

Lemma distinct_ids_bound_witness :
  Z.of_nat (length (run_ops [Add (1 # 2) (mkNewBook "Emma" "Jane Austen"
                                                   "Classic")]
                            books)) ≤ 10001.
Proof.
  apply distinct_ids_bound.
  - apply Forall_cons. split; [split; [discriminate|reflexivity]|].
    apply Forall_nil_2.
  - apply (bool_decide_unpack _). vm_compute. exact I.
Defined.

(** ** Examples for the earlier lemmas *)

Lemma daysLate_spec_witness :
  daysLate (14 * 86400000 + 1) (14 * 86400000) = 1 ↔
  (1 - 1) * 86400000 < 14 * 86400000 + 1 - 14 * 86400000 ≤ 1 * 86400000.
Proof.
  apply (daysLate_spec (14 * 86400000 + 1) (14 * 86400000) 1).
  unfold exact_span. cbn. lia.
Defined.

Lemma reachable_return_due_witness :
  ∃ k b due, findBook "2" books_on_loan = Some (k, b) ∧ dueDate b = Some due.
Proof.
  apply (reachable_return_due 5 "2" "u" books_on_loan
           (mkReturnedBook seed_1984 None) books).
  - apply (reachable_dated_exec (Borrow 0 "2" "u") books);
      [unfold clock_ok, valid_time; lia|apply reachable_dated_seed].
  - reflexivity.
Defined.

(** ** A loan with no valid due date *)

(** X29. When the day 14 days after the current time is not a valid date,
    a [borrowBook] of a book that is not on loan throws the range error
    after it marked the record: the record is left borrowed by the given
    borrower with the due date it had before, its description unchanged.
    A return by that borrower then succeeds and clears the loan. *)
Theorem borrowBook_invalid_date now now' i u (s : list Book) k b :
  findBook i s = Some (k, b) → isBorrowed b = false →
  ¬ valid_time (now + 14 * 86400000) →
  ∃ b' r,
    borrowBook now i u s = (inl RangeError, <[k := b']> s) ∧
    isBorrowed b' = true ∧ borrowerId b' = Some u ∧
    dueDate b' = dueDate b ∧ description b' = description b ∧
    returnBook now' i u (<[k := b']> s) = (inr r, <[k := cleared b]> s) ∧
    returned r = cleared b.
Proof.
  intros Hfind Hb Hinvalid. exists (half_borrowed u b).
  rewrite borrowBook_run, Hfind, Hb, decide_False by exact Hinvalid.
  rewrite returnBook_run.
  rewrite (findBook_insert_same_id i s k b (half_borrowed u b) Hfind eq_refl).
  cbn. rewrite decide_True by done. rewrite list_insert_insert_eq.
  eexists. by split_and!.
Qed.

Lemma borrowBook_invalid_date_witness :
  ∃ b' r,
    borrowBook 8640000000000000 "2" "u" books
      = (inl RangeError, <[1%nat := b']> books) ∧
    isBorrowed b' = true ∧ borrowerId b' = Some "u" ∧
    dueDate b' = dueDate seed_1984 ∧ description b' = description seed_1984 ∧
    returnBook 5 "2" "u" (<[1%nat := b']> books)
      = (inr r, <[1%nat := cleared seed_1984]> books) ∧
    returned r = cleared seed_1984.
Proof.
  apply (borrowBook_invalid_date 8640000000000000 5 "2" "u" books
           1%nat seed_1984).
  - reflexivity.
  - reflexivity.
  - unfold valid_time. lia.
Defined.
